(** * DVC Auto-Signer: the annotation heuristics of [auto_sign.py]

    The four stages of the annotator (Section Locator, Checkbox Marker,
    Notes Filler, Signature Filler) are embedded as programs of a small
    state-and-exception monad over the list of pages of a document.

    Modelling conventions.
    - Coordinates are PyMuPDF floats, with the y axis pointing down the
      page.  They are modelled by exact rationals ([Q]); comparisons are
      Python's ([==] is [Qeq_bool], not Leibniz equality), arithmetic is
      exact.
    - A text is a [string] holding the UTF-8 encoding of the Python [str];
      its characters are the code points of that encoding: [len] counts
      them and [str.isdigit] is the Unicode test of Python.
    - The [fitz] page object is an interface ([Fitz]): the embedding assumes
      nothing about how drawing a line or inserting text changes what a later
      [search_for] or [get_text] returns.  [doc[i]] raises [IndexError]
      when the document has no page [i]; no other exception is modelled.
    - [random.random()] is a sequence [random : nat -> Q]; the state carries
      the number of draws made so far.  In floating point
      [a + (b - a) * random()] can round to [b] itself, so the bounds on the
      jitter are closed ones and hold for a generator with values in the
      closed interval from 0 to 1. *)

From Stdlib Require Import QArith Qabs Qround ZArith List String Ascii Lia Bool.
From Stdlib Require Import Permutation Sorted SetoidList Lqa.
From stdpp Require Import gmap.
Import ListNotations.

Local Open Scope Q_scope.

(** ** Numbers *)

(** [a < b] on floats, as a boolean. *)
Definition Qlt_bool (a b : Q) : bool := negb (Qle_bool b a).

(** Python's [max(a, b)]: the first argument unless the second is larger. *)
Definition py_max (a b : Q) : Q := if Qlt_bool a b then b else a.

(** Python's [round(x)] with one argument: to the nearest integer, a tie
    going to the even neighbour. *)
Definition py_round (x : Q) : Z :=
  let n := Qfloor x in
  match Qcompare (x - inject_Z n) (1 # 2) with
  | Lt => n
  | Gt => (n + 1)%Z
  | Eq => if Z.even n then n else (n + 1)%Z
  end.

(** The sentinel [1e9] that the minimum searches start from. *)
Definition big : Q := 1e9.

(** ** Geometry and text *)

(** [fitz.Rect]. *)
Record Rect : Type := mkRect { x0 : Q; y0 : Q; x1 : Q; y1 : Q }.

(** Truth value of a [fitz.Rect]: false exactly when all four coordinates
    are zero. *)
Definition rect_bool (r : Rect) : bool :=
  negb (Qeq_bool (x0 r) 0 && Qeq_bool (y0 r) 0 && Qeq_bool (x1 r) 0 && Qeq_bool (y1 r) 0).

(** An entry of [page.get_text("words")]:
    [(x0, y0, x1, y1, "word", block_no, line_no, word_no)]. *)
Record Word : Type := mkWord {
  wx0 : Q; wy0 : Q; wx1 : Q; wy1 : Q;
  wtxt : string;
  block_no : nat; line_no : nat; word_no : nat
}.

Definition Point : Type := (Q * Q)%type.
Definition Color : Type := (Q * Q * Q)%type.

(** [(1, 0, 0)] *)
Definition red : Color := (1, 0, 0).

(** A text is a [string] that holds the UTF-8 encoding of the Python [str];
    its characters are the Unicode code points this encoding stands for. *)

(** A continuation byte, [10xxxxxx]. *)
Definition continuation (b : N) : bool := ((128 <=? b) && (b <? 192))%N.

(** The code points of a sequence of bytes.  A byte that is no part of an
    encoding stands for U+FFFD; no [str] has such a byte in its encoding. *)
Fixpoint decode_utf8 (bytes : list N) : list N :=
  match bytes with
  | [] => []
  | b0 :: r0 =>
      let stray := (65533 :: decode_utf8 r0)%N in
      if (b0 <? 128)%N then b0 :: decode_utf8 r0
      else
        match r0 with
        | [] => stray
        | b1 :: r1 =>
            if ((192 <=? b0) && (b0 <? 224))%N && continuation b1
            then ((b0 - 192) * 64 + (b1 - 128))%N :: decode_utf8 r1
            else
              match r1 with
              | [] => stray
              | b2 :: r2 =>
                  if ((224 <=? b0) && (b0 <? 240))%N && continuation b1 && continuation b2
                  then ((b0 - 224) * 4096 + (b1 - 128) * 64 + (b2 - 128))%N
                       :: decode_utf8 r2
                  else
                    match r2 with
                    | [] => stray
                    | b3 :: r3 =>
                        if ((240 <=? b0) && (b0 <? 248))%N && continuation b1
                           && continuation b2 && continuation b3
                        then ((b0 - 240) * 262144 + (b1 - 128) * 4096
                              + (b2 - 128) * 64 + (b3 - 128))%N
                             :: decode_utf8 r3
                        else stray
                    end
              end
        end
  end.

(** [for ch in t]: the characters of a text. *)
Definition code_points (t : string) : list N :=
  decode_utf8 (map N_of_ascii (list_ascii_of_string t)).

(** The characters for which [str.isdigit()] is true, as ranges
    [(first, last)] of code points: the characters whose Unicode property
    Numeric_Type is Decimal or Digit (Unicode 14.0, the table of CPython
    3.11).  Besides "0" to "9" these are the digits of the other scripts
    and the superscript, subscript and circled digits. *)
Definition digit_ranges : list (N * N) :=
  [(48, 57); (178, 179); (185, 185); (1632, 1641); (1776, 1785); (1984, 1993);
   (2406, 2415); (2534, 2543); (2662, 2671); (2790, 2799); (2918, 2927); (3046, 3055);
   (3174, 3183); (3302, 3311); (3430, 3439); (3558, 3567); (3664, 3673); (3792, 3801);
   (3872, 3881); (4160, 4169); (4240, 4249); (4969, 4977); (6112, 6121); (6160, 6169);
   (6470, 6479); (6608, 6618); (6784, 6793); (6800, 6809); (6992, 7001); (7088, 7097);
   (7232, 7241); (7248, 7257); (8304, 8304); (8308, 8313); (8320, 8329); (9312, 9320);
   (9332, 9340); (9352, 9360); (9450, 9450); (9461, 9469); (9471, 9471);
   (10102, 10110); (10112, 10120); (10122, 10130); (42528, 42537); (43216, 43225);
   (43264, 43273); (43472, 43481); (43504, 43513); (43600, 43609); (44016, 44025);
   (65296, 65305); (66720, 66729); (68160, 68163); (68912, 68921); (69216, 69224);
   (69714, 69722); (69734, 69743); (69872, 69881); (69942, 69951); (70096, 70105);
   (70384, 70393); (70736, 70745); (70864, 70873); (71248, 71257); (71360, 71369);
   (71472, 71481); (71904, 71913); (72016, 72025); (72784, 72793); (73040, 73049);
   (73120, 73129); (92768, 92777); (92864, 92873); (93008, 93017); (120782, 120831);
   (123200, 123209); (123632, 123641); (125264, 125273); (127232, 127242);
   (130032, 130041)]%N.

(** [ch.isdigit()] *)
Definition is_digit (ch : N) : bool :=
  existsb (fun r => ((fst r <=? ch) && (ch <=? snd r))%N) digit_ranges.

(** [any(ch.isdigit() for ch in t)] *)
Definition any_digit (t : string) : bool :=
  existsb is_digit (code_points t).

(** ["%" in t] *)
Definition has_percent (t : string) : bool :=
  existsb (Ascii.eqb "%"%char) (list_ascii_of_string t).

(** ** The PDF library *)

(** What the code uses of [fitz]: the words and the text search of a page,
    the two drawing primitives, and the font-metric lookup, which can
    raise ([None]). *)
Class Fitz (Page : Type) : Type := {
  get_text_words : Page -> list Word;
  search_for : Page -> string -> list Rect;
  draw_line : Point -> Point -> Color -> Q -> Page -> Page;
  insert_text : Point -> string -> Q -> string -> Color -> Page -> Page;
  get_text_length : string -> string -> Q -> option Q
}.

(** ** State and exceptions *)

Inductive exn : Type := IndexError.

Record state (Page : Type) : Type := mkState {
  doc : list Page;   (* the pages of the open document *)
  rng : nat          (* how many times random.random() was called *)
}.
Arguments mkState {Page} _ _.
Arguments doc {Page} _.
Arguments rng {Page} _.

Inductive result (S A : Type) : Type :=
| Ok (a : A) (s : S)
| Raise (e : exn).
Arguments Ok {S A} _ _.
Arguments Raise {S A} _.

Definition M (Page A : Type) : Type := state Page -> result (state Page) A.

Definition ret {Page A} (a : A) : M Page A := fun s => Ok a s.

Definition bind {Page A B} (m : M Page A) (k : A -> M Page B) : M Page B :=
  fun s => match m s with
           | Ok a s' => k a s'
           | Raise e => Raise e
           end.

Declare Scope py_scope.
Delimit Scope py_scope with py.
Notation "x <- m ;; k" := (bind m (fun x => k))
  (at level 100, m at next level, right associativity) : py_scope.
Notation "m ;; k" := (bind m (fun _ => k))
  (at level 100, right associativity) : py_scope.
Local Open Scope py_scope.

(** [for a in l: body(a)] *)
Fixpoint for_each {Page A} (l : list A) (body : A -> M Page unit) : M Page unit :=
  match l with
  | [] => ret tt
  | a :: l' => body a ;; for_each l' body
  end.

(** A loop that carries an accumulator. *)
Fixpoint for_fold {Page A B} (l : list A) (body : B -> A -> M Page B) (acc : B) : M Page B :=
  match l with
  | [] => ret acc
  | a :: l' => acc' <- body acc a ;; for_fold l' body acc'
  end.

(** A loop left by [return]/[break] at the first [Some]. *)
Fixpoint for_first {Page A B} (l : list A) (body : A -> M Page (option B)) : M Page (option B) :=
  match l with
  | [] => ret None
  | a :: l' => r <- body a ;;
               match r with
               | Some b => ret (Some b)
               | None => for_first l' body
               end
  end.

Section Document.
Context {Page : Type} `{Fitz Page}.

(** The successive results of [random.random()], each in [[0, 1)]. *)
Variable random : nat -> Q.

(** [len(doc)] *)
Definition len_doc : M Page nat := fun s => Ok (length (doc s)) s.

(** [doc[i]] for [i >= 0]: raises when the page is not in the document. *)
Definition load_page (i : nat) : M Page Page :=
  fun s => match doc s !! i with
           | Some p => Ok p s
           | None => Raise IndexError
           end.

(** A method of page [i] that mutates it. *)
Definition update_page (i : nat) (f : Page -> Page) : M Page unit :=
  fun s => match doc s !! i with
           | Some p => Ok tt (mkState (<[i := f p]> (doc s)) (rng s))
           | None => Raise IndexError
           end.

(** [doc[i].search_for(needle)] *)
Definition page_search (i : nat) (needle : string) : M Page (list Rect) :=
  p <- load_page i ;; ret (search_for p needle).

(** [random.uniform(a, b)], which is [a + (b - a) * random()]; the end
    point [b] is reached when the generator gives 1, as it is in floating
    point by rounding for a value of [random()] just below 1. *)
Definition uniform (a b : Q) : M Page Q :=
  fun s => Ok (a + (b - a) * random (rng s)) (mkState (doc s) (S (rng s))).

(** [text_width]: the font-metric lookup, and [len(txt) * fontsize * 0.5]
    when it raises. *)
Definition text_width (txt : string) (fontsize : Q) : Q :=
  match get_text_length txt "helv" fontsize with
  | Some w => w
  | None => inject_Z (Z.of_nat (List.length (code_points txt))) * fontsize * 0.5
  end.

(** *** Section Locator *)

Definition find_ieq_sections : M Page (gmap nat Rect) :=
  n <- len_doc ;;
  for_fold (seq 0 n)
    (fun (sections : gmap nat Rect) i =>
       rects <- page_search i "Indoor Environmental Quality" ;;
       match rects with
       | r :: _ => ret (<[i := r]> sections)
       | [] => ret sections
       end)
    ∅.

(** *** Checkbox Marker *)

(** [key = round(y_mid * 2) / 2.0] *)
Definition line_key (w : Word) : Q :=
  let y_mid := (wy0 w + wy1 w) / 2 in
  inject_Z (py_round (y_mid * 2)) / 2.0.

(** [line_buckets.setdefault(key, []).append(w)] on a dict that keeps its
    keys in insertion order. *)
Fixpoint setdefault_append (key : Q) (w : Word) (buckets : list (Q * list Word))
  : list (Q * list Word) :=
  match buckets with
  | [] => [(key, [w])]
  | (k, ws) :: rest =>
      if Qeq_bool k key then (k, ws ++ [w]) :: rest
      else (k, ws) :: setdefault_append key w rest
  end.

Definition line_buckets (words : list Word) : list (Q * list Word) :=
  fold_left (fun buckets w => setdefault_append (line_key w) w buckets) words [].

(** [line_words.sort(key=lambda w: w[0])]: a stable sort on the left edge. *)
Fixpoint insert_by_x0 (w : Word) (sorted : list Word) : list Word :=
  match sorted with
  | [] => [w]
  | v :: rest =>
      if Qle_bool (wx0 w) (wx0 v) then w :: sorted
      else v :: insert_by_x0 w rest
  end.

Definition sort_by_x0 (l : list Word) : list Word :=
  fold_right insert_by_x0 [] l.

Definition is_yes (w : Word) : bool := (wtxt w =? "Yes")%string.
Definition is_no (w : Word) : bool := (wtxt w =? "No")%string.

(** [y_threshold]: the top of the rectangle recorded for the page, when
    there is one and it is truthy. *)
Definition y_threshold (skip_after_y_by_page : gmap nat Rect) (idx : nat) : option Q :=
  match skip_after_y_by_page !! idx with
  | Some y_threshold_rect =>
      if rect_bool y_threshold_rect then Some (y0 y_threshold_rect) else None
  | None => None
  end.

(** [y_threshold is not None and y0 >= y_threshold - 2] *)
Definition ieq_skip (y_threshold : option Q) (w : Word) : bool :=
  match y_threshold with
  | Some t => Qle_bool (t - 2) (wy0 w)
  | None => false
  end.

(** The loop over [line_words] that looks for the nearest "No" to the right
    of the right edge [x1]; the pair is [(right_no, min_dx)]. *)
Definition scan_right_no (x1 : Q) (line_words : list Word) : option Word * Q :=
  fold_left
    (fun (acc : option Word * Q) ww =>
       let '(right_no, min_dx) := acc in
       if is_no ww && Qlt_bool x1 (wx0 ww) then
         let dx := wx0 ww - x1 in
         if Qle_bool 30 dx && Qle_bool dx 250 && Qlt_bool dx min_dx
         then (Some ww, dx) else (right_no, min_dx)
       else (right_no, min_dx))
    line_words (None, big).

(** The loop that looks for the word ending nearest to the left of [x0],
    less than 25 units away. *)
Definition scan_left_neighbor (x0 : Q) (line_words : list Word) : option Word :=
  fold_left
    (fun (left_neighbor : option Word) ww =>
       if Qle_bool (wx1 ww) x0 && Qlt_bool (x0 - wx1 ww) 25 then
         match left_neighbor with
         | None => Some ww
         | Some ln => if Qlt_bool (wx1 ln) (wx1 ww) then Some ww else left_neighbor
         end
       else left_neighbor)
    line_words None.

(** [any(ch.isdigit() for ch in t) or "%" in t] on the left neighbour. *)
Definition numeric_left (left_neighbor : option Word) : bool :=
  match left_neighbor with
  | Some ln => any_digit (wtxt ln) || has_percent (wtxt ln)
  | None => false
  end.

(** The humanized X: four draws of the generator, then the two diagonals. *)
Definition draw_x (idx : nat) (x_offset box width : Q) (w : Word) : M Page unit :=
  j1 <- uniform (-1.5) 1.5 ;;
  let cx := wx0 w - (x_offset + j1) in
  j2 <- uniform (-1.2) 1.2 ;;
  let cy := wy0 w + (wy1 w - wy0 w) / 2 + j2 in
  j3 <- uniform (-1.0) 1.2 ;;
  let b := py_max 7.5 (box + j3) in
  j4 <- uniform (-0.2) 0.25 ;;
  let wline := py_max 0.9 (width + j4) in
  let '(xA, yA) := (cx - b / 2, cy - b / 2) in
  let '(xB, yB) := (cx + b / 2, cy + b / 2) in
  let '(xC, yC) := (cx - b / 2, cy + b / 2) in
  let '(xD, yD) := (cx + b / 2, cy - b / 2) in
  update_page idx (draw_line (xA, yA) (xB, yB) red wline) ;;
  update_page idx (draw_line (xC, yC) (xD, yD) red wline).

(** The body of [for w in yes_cands], with its four [continue]s. *)
Definition mark_yes_word (idx : nat) (x_offset box width : Q)
    (y_threshold : option Q) (line_words : list Word) (has_no : bool) (w : Word)
  : M Page unit :=
  if ieq_skip y_threshold w then ret tt
  else if negb has_no then ret tt
  else match fst (scan_right_no (wx1 w) line_words) with
       | None => ret tt
       | Some _ =>
           if numeric_left (scan_left_neighbor (wx0 w) line_words) then ret tt
           else draw_x idx x_offset box width w
       end.

(** The body of [for key, line_words in line_buckets.items()]. *)
Definition mark_line (idx : nat) (x_offset box width : Q)
    (y_threshold : option Q) (bucket : list Word) : M Page unit :=
  let line_words := sort_by_x0 bucket in
  let yes_cands := List.filter is_yes line_words in
  let has_no := existsb is_no line_words in
  for_each yes_cands (mark_yes_word idx x_offset box width y_threshold line_words has_no).

(** The body of [for idx, page in enumerate(doc)]. *)
Definition mark_page (idx : nat) (x_offset box width : Q)
    (skip_after_y_by_page : gmap nat Rect) (page : Page) : M Page unit :=
  match get_text_words page with
  | [] => ret tt
  | words =>
      for_each (line_buckets words)
        (fun kv => mark_line idx x_offset box width
                     (y_threshold skip_after_y_by_page idx) (snd kv))
  end.

(** [skip_after_y_by_page] is [None] when the argument is left out. *)
Definition mark_yes_boxes_red (x_offset box width : Q)
    (skip_after_y_by_page : option (gmap nat Rect)) : M Page unit :=
  let skip_after_y_by_page := default ∅ skip_after_y_by_page in
  n <- len_doc ;;
  for_each (seq 0 n)
    (fun idx => page <- load_page idx ;;
                mark_page idx x_offset box width skip_after_y_by_page page).

(** *** Notes Filler *)

(** [sorted(ieq_sections.items())]: the keys of a dict are distinct, so the
    tuples are ordered by their page index alone. *)
Fixpoint insert_by_key (kv : nat * Rect) (sorted : list (nat * Rect))
  : list (nat * Rect) :=
  match sorted with
  | [] => [kv]
  | kv' :: rest =>
      if (fst kv <=? fst kv')%nat then kv :: sorted
      else kv' :: insert_by_key kv rest
  end.

Definition sorted_items (ieq_sections : gmap nat Rect) : list (nat * Rect) :=
  fold_right insert_by_key [] (map_to_list ieq_sections).

(** [for pi in range(start_page + 1, len(doc))]: the first later page with
    a "Notes:" occurrence, and that occurrence. *)
Definition notes_forward (start_page : nat) : M Page (option (nat * Rect)) :=
  n <- len_doc ;;
  for_first (seq (start_page + 1) (n - (start_page + 1)))
    (fun pi => nxt <- page_search pi "Notes:" ;;
               match nxt with
               | r :: _ => ret (Some (pi, r))
               | [] => ret None
               end).

(** The variables [page] and [target] after the two searches: the index of
    the page that holds the target, and the target. *)
Definition notes_target (start_page : nat) (ieq_rect : Rect)
  : M Page (option (nat * Rect)) :=
  page <- load_page start_page ;;
  let candidates :=
    List.filter (fun r => Qlt_bool (y1 ieq_rect) (y0 r)) (search_for page "Notes:") in
  match candidates with
  | r :: _ => ret (Some (start_page, r))
  | [] => notes_forward start_page
  end.

(** The body of [for start_page, ieq_rect in sorted(ieq_sections.items())]. *)
Definition insert_notes_na_at (section : nat * Rect) : M Page unit :=
  let '(start_page, ieq_rect) := section in
  found <- notes_target start_page ieq_rect ;;
  match found with
  | Some (pi, target) =>
      update_page pi
        (insert_text (x1 target + 10, y1 target + 8) "NA" 11 "helv" red)
  | None => ret tt
  end.

Definition insert_ieq_notes_na (ieq_sections : gmap nat Rect) : M Page unit :=
  for_each (sorted_items ieq_sections) insert_notes_na_at.

(** *** Signature Filler *)

(** [(r.y0 + r.y1) / 2] *)
Definition v_center (r : Rect) : Q := (y0 r + y1 r) / 2.

(** [abs((s.y0+s.y1)/2 - (d.y0+d.y1)/2)] *)
Definition v_gap (s d : Rect) : Q := Qabs (v_center s - v_center d).

(** The two inner loops of the fallback search on page [i]; the pair is
    [(best, best_gap)]. *)
Definition scan_page_pairs (i : nat) (sigs dates : list Rect)
    (acc : option nat * Q) : option nat * Q :=
  fold_left
    (fun acc s =>
       fold_left
         (fun (acc : option nat * Q) d =>
            let '(best, best_gap) := acc in
            let gap := v_gap s d in
            if Qlt_bool gap best_gap then (Some i, gap) else (best, best_gap))
         dates acc)
    sigs acc.

Definition find_signature_page : M Page nat :=
  n <- len_doc ;;
  exact <- for_first (seq 0 n)
    (fun i => rects <- page_search i "Signature & Stamp of Verifying Licensed Professional" ;;
              match rects with
              | _ :: _ => ret (Some i)
              | [] => ret None
              end) ;;
  match exact with
  | Some i => ret i
  | None =>
      found <- for_fold (seq 0 n)
        (fun acc i =>
           p <- load_page i ;;
           let sigs := search_for p "Signature" in
           let dates := search_for p "Date" in
           ret (scan_page_pairs i sigs dates acc))
        (None, big) ;;
      match fst found with
      | Some best => ret best
      | None => ret (Z.to_nat (Z.max 0 (Z.of_nat n - 2)))
      end
  end.

(** The "(Date)" occurrence that receives "NA": [None] when there is no
    occurrence at all. *)
Definition choose_para_date (name_marks date_marks_para : list Rect) : option Rect :=
  match date_marks_para with
  | [] => None
  | first :: _ =>
      let chosen :=
        match name_marks with
        | name :: _ =>
            let ny := y0 name in
            List.find (fun d => Qle_bool (ny - 5) (y0 d)) date_marks_para
        | [] => None
        end in
      match chosen with
      | Some d => Some d
      | None => Some first
      end
  end.

(** The double loop that pairs the labels within [tol]; the pair is
    [(best_pair, best_gap)]. *)
Definition scan_label_pairs (tol : Q) (sig_rects date_rects : list Rect)
  : option (Rect * Rect) * Q :=
  fold_left
    (fun acc s =>
       fold_left
         (fun (acc : option (Rect * Rect) * Q) d =>
            let '(best_pair, best_gap) := acc in
            let gap := v_gap s d in
            if Qle_bool gap tol && Qlt_bool gap best_gap
            then (Some (s, d), gap) else (best_pair, best_gap))
         date_rects acc)
    sig_rects (None, big).

(** [min(first :: rest, key=key)]: the first element with the least key. *)
Definition min_by (key : Rect -> Q) (first : Rect) (rest : list Rect) : Rect :=
  fold_left (fun best r => if Qlt_bool (key r) (key best) then r else best) rest first.

(** [best_pair] after the double loop and the fallback. *)
Definition pair_labels (tol : Q) (sig_rects date_rects : list Rect)
  : option (Rect * Rect) :=
  match fst (scan_label_pairs tol sig_rects date_rects) with
  | Some best_pair => Some best_pair
  | None =>
      match sig_rects, date_rects with
      | s0 :: sigs, d0 :: dates =>
          let s := min_by y0 s0 sigs in
          let d := min_by (fun r => Qabs (v_center r - v_center s)) d0 dates in
          Some (s, d)
      | _, _ => None
      end
  end.

(** The block under [# Paragraph tokens]: both searches come first, then
    the name before "(Name)" and "NA" before the chosen "(Date)". *)
Definition fill_paragraph (sig_page : nat) (page : Page) (signer_name : string)
  : M Page unit :=
  let name_marks := search_for page "(Name)" in
  let date_marks_para := search_for page "(Date)" in
  match name_marks with
  | r :: _ =>
      let w := text_width signer_name 11 in
      update_page sig_page
        (insert_text (x0 r - 6 - w, y1 r - 2) signer_name 11 "helv" red)
  | [] => ret tt
  end ;;
  match choose_para_date name_marks date_marks_para with
  | Some chosen =>
      let w := text_width "NA" 11 in
      update_page sig_page
        (insert_text (x0 chosen - 6 - w, y1 chosen - 2) "NA" 11 "helv" red)
  | None => ret tt
  end.

(** The block under [# Pair proper Signature/Date by vertical proximity]:
    the labels are searched on the page as the paragraph block left it. *)
Definition fill_labels (sig_page : nat) (signer_name bottom_date : string) (tol : Q)
  : M Page unit :=
  sig_rects <- page_search sig_page "Signature" ;;
  date_rects <- page_search sig_page "Date" ;;
  match pair_labels tol sig_rects date_rects with
  | Some (s, d) =>
      update_page sig_page
        (insert_text (x1 s + 12, y1 s - 2) signer_name 16 "helv" red) ;;
      update_page sig_page
        (insert_text (x1 d + 12, y1 d - 2) bottom_date 12 "helv" red)
  | None => ret tt
  end.

Definition fill_signature_section_red (signer_name bottom_date : string) (tol : Q)
  : M Page unit :=
  sig_page <- find_signature_page ;;
  page <- load_page sig_page ;;
  fill_paragraph sig_page page signer_name ;;
  fill_labels sig_page signer_name bottom_date tol.

(** *** The three stages in order

    What the script does with one opened document between [fitz.open] and
    [doc.save]; [name] and [date_str] are the text inputs after [strip()]. *)
Definition process_document (opt_yes opt_sign opt_ieq : bool) (name date_str : string)
  : M Page unit :=
  ieq_sections <- (if opt_ieq || opt_yes then find_ieq_sections else ret ∅) ;;
  (if opt_yes then mark_yes_boxes_red 9 10 1.2 (Some ieq_sections) else ret tt) ;;
  (if opt_ieq && negb (size ieq_sections =? 0)%nat
   then insert_ieq_notes_na ieq_sections else ret tt) ;;
  (if opt_sign then fill_signature_section_red name date_str 60 else ret tt).

(** *** The name of the output

    [stem = uploaded.name.rsplit(".", 1)[0]] and
    [out_name = f"{stem}_signed.pdf"]. *)

(** What precedes the last "." of [s]; [None] when [s] has no ".". *)
Fixpoint before_last_dot (s : string) : option string :=
  match s with
  | EmptyString => None
  | String c rest =>
      match before_last_dot rest with
      | Some stem => Some (String c stem)
      | None => if Ascii.eqb c "."%char then Some EmptyString else None
      end
  end.

(** [s.rsplit(".", 1)[0]] *)
Definition rsplit_stem (s : string) : string :=
  match before_last_dot s with
  | Some stem => stem
  | None => s
  end.

Definition out_name (name : string) : string :=
  (rsplit_stem name ++ "_signed.pdf")%string.

(** *** The marks of a page

    The words that pass the four [continue]s of the marker, in the order in
    which their X is drawn.  The marker is shown below to draw exactly these
    ([mark_page_draws]); the properties of the marker are stated on them. *)

Definition checkbox_label (y_threshold : option Q) (line_words : list Word) (w : Word)
  : bool :=
  negb (ieq_skip y_threshold w)
  && existsb is_no line_words
  && match fst (scan_right_no (wx1 w) line_words) with
     | Some _ => true
     | None => false
     end
  && negb (numeric_left (scan_left_neighbor (wx0 w) line_words)).

Definition marked_in_line (y_threshold : option Q) (bucket : list Word) : list Word :=
  let line_words := sort_by_x0 bucket in
  List.filter (checkbox_label y_threshold line_words) (List.filter is_yes line_words).

Definition marked_on_page (y_threshold : option Q) (words : list Word) : list Word :=
  flat_map (fun kv => marked_in_line y_threshold (snd kv)) (line_buckets words).

Definition draw_marks (idx : nat) (x_offset box width : Q) (marks : list Word)
  : M Page unit :=
  for_each marks (draw_x idx x_offset box width).

(** *** The signature page after each block

    What [fill_paragraph] and [fill_labels] make of the page they work on
    ([fill_paragraph_result], [fill_labels_result]). *)

Definition paragraph_filled (page : Page) (signer_name : string) : Page :=
  let named :=
    match search_for page "(Name)" with
    | r :: _ =>
        insert_text (x0 r - 6 - text_width signer_name 11, y1 r - 2)
          signer_name 11 "helv" red page
    | [] => page
    end in
  match choose_para_date (search_for page "(Name)") (search_for page "(Date)") with
  | Some chosen =>
      insert_text (x0 chosen - 6 - text_width "NA" 11, y1 chosen - 2)
        "NA" 11 "helv" red named
  | None => named
  end.

Definition labels_filled (page : Page) (signer_name bottom_date : string) (tol : Q)
  : Page :=
  match pair_labels tol (search_for page "Signature") (search_for page "Date") with
  | Some (s, d) =>
      insert_text (x1 d + 12, y1 d - 2) bottom_date 12 "helv" red
        (insert_text (x1 s + 12, y1 s - 2) signer_name 16 "helv" red page)
  | None => page
  end.

End Document.

(** ** Vocabulary of the properties

    Predicates and derived lists in which the properties below are stated
    and proved. *)

Section Vocabulary.
Context {Page : Type} `{Fitz Page}.

(** *** Lines *)

(** Whether a word belongs to the line of key [k]. *)
Definition same_line (k : Q) (w : Word) : bool := Qeq_bool k (line_key w).

(** The buckets after the words [seen]: each bucket holds, in their order,
    the words of its key; no two buckets have equal keys; every word seen
    has its bucket. *)
Record buckets_ok (seen : list Word) (b : list (Q * list Word)) : Prop := {
  bk_content : forall k ws, In (k, ws) b -> ws = List.filter (same_line k) seen;
  bk_distinct : NoDupA Qeq (map fst b);
  bk_cover : forall w, In w seen -> InA Qeq (line_key w) (map fst b)
}.

(** [ww] is a "No" that starts strictly right of [x1], 30 to 250 units
    away. *)
Definition right_no_ok (x1 : Q) (ww : Word) : Prop :=
  wtxt ww = "No"%string /\ x1 < wx0 ww /\ 30 <= wx0 ww - x1 /\ wx0 ww - x1 <= 250.

(** The state of the loop after a prefix of the line: a "No" was kept
    exactly when the prefix holds a qualifying one, and the least gap so far
    stays at most 250 once one was kept. *)
Definition right_no_inv (x1 : Q) (prefix : list Word) (acc : option Word * Q) : Prop :=
  match fst acc with
  | Some no => In no prefix /\ right_no_ok x1 no /\ snd acc == wx0 no - x1 /\
               forall ww, In ww prefix -> right_no_ok x1 ww -> snd acc <= wx0 ww - x1
  | None => snd acc = big /\ forall ww, In ww prefix -> ~ right_no_ok x1 ww
  end.

(** [ww] ends at or before [x0], less than 25 units away. *)
Definition left_adjacent (x0 : Q) (ww : Word) : Prop :=
  wx1 ww <= x0 /\ x0 - wx1 ww < 25.

(** The state of the loop after a prefix of the line: the word kept ends
    nearest to [x0] among those within reach. *)
Definition left_neighbor_inv (x0 : Q) (prefix : list Word) (acc : option Word) : Prop :=
  match acc with
  | Some ln => In ln prefix /\ left_adjacent x0 ln /\
               forall ww, In ww prefix -> left_adjacent x0 ww -> wx1 ww <= wx1 ln
  | None => forall ww, In ww prefix -> ~ left_adjacent x0 ww
  end.

(** "contains a digit or a percent sign": one of the characters of the text
    is a digit for [str.isdigit()], or the text holds a "%". *)
Definition numeric_text (t : string) : Prop :=
  (exists ch, In ch (code_points t) /\ is_digit ch = true) \/
  In "%"%char (list_ascii_of_string t).

(** *** The marks of the document *)

(** What the marker draws on page [idx]: the marks of the words that the
    page has in the document [st0], the one the marker started from. *)
Definition draw_page_marks (random : nat -> Q) (x_offset box width : Q)
    (skip : gmap nat Rect) (st0 : state Page) (idx : nat) : M Page unit :=
  match doc st0 !! idx with
  | Some page =>
      draw_marks random idx x_offset box width
        (marked_on_page (y_threshold skip idx) (get_text_words page))
  | None => ret tt
  end.

(** *** The drawings of the marker *)

(** The vertical midpoint of a word. *)
Definition v_mid (w : Word) : Q := (wy0 w + wy1 w) / 2.

(** Page [page] after the X of word [w], when the generator has been
    called [n] times before. *)
Definition x_drawn (random : nat -> Q) (x_offset box width : Q) (w : Word)
    (page : Page) (n : nat) : Page :=
  let cx := wx0 w - (x_offset + (-1.5 + (1.5 - -1.5) * random n)) in
  let cy := wy0 w + (wy1 w - wy0 w) / 2 + (-1.2 + (1.2 - -1.2) * random (S n)) in
  let b := py_max 7.5 (box + (-1.0 + (1.2 - -1.0) * random (S (S n)))) in
  let wline := py_max 0.9 (width + (-0.2 + (0.25 - -0.2) * random (S (S (S n))))) in
  draw_line (cx - b / 2, cy + b / 2) (cx + b / 2, cy - b / 2) red wline
    (draw_line (cx - b / 2, cy - b / 2) (cx + b / 2, cy + b / 2) red wline page).

(** The page and the number of calls of the generator after the X of each
    of [marks], in order. *)
Fixpoint marks_drawn (random : nat -> Q) (x_offset box width : Q) (marks : list Word)
    (page : Page) (n : nat) : Page * nat :=
  match marks with
  | [] => (page, n)
  | w :: rest =>
      marks_drawn random x_offset box width rest
        (x_drawn random x_offset box width w page n) (S (S (S (S n))))
  end.

(** The marks of page [idx] of the document [st0] under the boundaries
    [skip]. *)
Definition page_marks (skip : gmap nat Rect) (st0 : state Page) (idx : nat) : list Word :=
  match doc st0 !! idx with
  | Some page => marked_on_page (y_threshold skip idx) (get_text_words page)
  | None => []
  end.

(** *** Minimum searches that start from the sentinel *)

(** One step of a minimum search over candidates [(payload, gap)]; [keep]
    tells whether a gap is admitted at all (the tolerance test, when there
    is one). *)
Definition keep_nearer {A} (keep : Q -> bool) (acc : option A * Q) (c : A * Q)
  : option A * Q :=
  if keep (snd c) && Qlt_bool (snd c) (snd acc) then (Some (fst c), snd c) else acc.

(** The state of such a search after the candidates [seen]. *)
Definition nearest_inv {A} (keep : Q -> bool) (seen : list (A * Q))
    (acc : option A * Q) : Prop :=
  match fst acc with
  | Some a => In (a, snd acc) seen /\ keep (snd acc) = true /\ snd acc < big /\
              forall c, In c seen -> keep (snd c) = true -> snd acc <= snd c
  | None => snd acc = big /\
            forall c, In c seen -> keep (snd c) = true -> big <= snd c
  end.

(** *** Labels *)

(** The "Signature"/"Date" pairs of a page, as candidates of the fallback
    search, in the order of the two inner loops. *)
Definition page_pairs (i : nat) (p : Page) : list (nat * Q) :=
  flat_map (fun s => map (fun d => (i, v_gap s d)) (search_for p "Date"))
           (search_for p "Signature").

(** The candidates of pages [k], [k+1], ... *)
Fixpoint doc_pairs (k : nat) (pages : list Page) : list (nat * Q) :=
  match pages with
  | [] => []
  | p :: rest => page_pairs k p ++ doc_pairs (S k) rest
  end.

(** Page [i] of the document holds the "Signature" box [s] and the "Date"
    box [d]. *)
Definition holds_pair (st : state Page) (i : nat) (s d : Rect) : Prop :=
  exists p, doc st !! i = Some p /\
            In s (search_for p "Signature") /\ In d (search_for p "Date").

(** The candidates of the double loop over the labels. *)
Definition label_pairs (sig_rects date_rects : list Rect) : list ((Rect * Rect) * Q) :=
  flat_map (fun s => map (fun d => ((s, d), v_gap s d)) date_rects) sig_rects.

(** The boundary of a page: the first hit of the heading, if any. *)
Definition first_heading (p : Page) : option Rect :=
  head (search_for p "Indoor Environmental Quality").

(** The threshold of a page under the boundaries of the Section Locator:
    the top of its first heading, when that rectangle is truthy. *)
Definition page_boundary (p : Page) : option Q :=
  match first_heading p with
  | Some r => if rect_bool r then Some (y0 r) else None
  | None => None
  end.

(** *** File names *)

(** ["." in s] *)
Definition has_dot (s : string) : bool :=
  existsb (Ascii.eqb "."%char) (list_ascii_of_string s).

End Vocabulary.

(** ** A page that records what is drawn on it

    An implementation of [Fitz] to run the code on concrete documents: the
    words and the search hits of a page are fixed data, every drawing call is
    appended to the page's list of operations, and the font-metric lookup
    always raises. *)

Inductive Op : Type :=
| Line (p1 p2 : Point) (color : Color) (width : Q)
| Text (at_point : Point) (txt : string) (fontsize : Q) (fontname : string) (fill : Color).

Record RecPage : Type := mkRecPage {
  rec_words : list Word;
  rec_hits : list (string * list Rect);
  rec_ops : list Op
}.

Fixpoint lookup_hits (needle : string) (hits : list (string * list Rect)) : list Rect :=
  match hits with
  | [] => []
  | (s, rects) :: rest => if (s =? needle)%string then rects else lookup_hits needle rest
  end.

Definition rec_add (op : Op) (p : RecPage) : RecPage :=
  mkRecPage (rec_words p) (rec_hits p) (rec_ops p ++ [op]).

#[export] Instance RecFitz : Fitz RecPage := {|
  get_text_words := rec_words;
  search_for := fun p needle => lookup_hits needle (rec_hits p);
  draw_line := fun p1 p2 color width => rec_add (Line p1 p2 color width);
  insert_text := fun at_point txt fontsize fontname fill =>
                   rec_add (Text at_point txt fontsize fontname fill);
  get_text_length := fun _ _ _ => None
|}.

(** A word from its corners and its text. *)
Definition word_at (xa ya xb yb : Q) (txt : string) : Word :=
  mkWord xa ya xb yb txt 0 0 0.

(** A generator that always returns [0.5]. *)
Definition half_random : nat -> Q := fun _ => 0.5.

(** *** Sample pages *)

(** The checkbox pair of the end-to-end scenario. *)
Definition yes_word : Word := word_at 100 200 130 212 "Yes".
Definition no_word : Word := word_at 180 200 210 212 "No".
Definition yes_no_page : RecPage := mkRecPage [yes_word; no_word] [] [].

(** The same pair with "100%" just before the "Yes". *)
Definition percent_word : Word := word_at 70 200 95 212 "100%".
Definition percent_page : RecPage :=
  mkRecPage [percent_word; yes_word; no_word] [] [].

(** The pair with "m²" just before the "Yes": a superscript two is a digit
    for [str.isdigit()]. *)
Definition squared_word : Word := word_at 70 200 95 212 "m²".
Definition squared_page : RecPage :=
  mkRecPage [squared_word; yes_word; no_word] [] [].

(** [fitz.Rect(0, 0, 0, 0)], whose truth value is false. *)
Definition zero_rect : Rect := mkRect 0 0 0 0.

(** A page with the IEQ heading at y = 400, a checkbox pair above it
    (y0 = 390) and one below it (y0 = 410). *)
Definition ieq_heading : Rect := mkRect 50 400 250 414.
Definition yes_above : Word := word_at 100 390 130 402 "Yes".
Definition no_above : Word := word_at 180 390 210 402 "No".
Definition yes_below : Word := word_at 100 410 130 422 "Yes".
Definition no_below : Word := word_at 180 410 210 422 "No".
Definition ieq_page : RecPage :=
  mkRecPage [yes_above; no_above; yes_below; no_below]
    [("Indoor Environmental Quality"%string, [ieq_heading])] [].

(** A page with the heading, one "Notes:" label above it and one below. *)
Definition notes_above : Rect := mkRect 50 300 90 312.
Definition notes_below : Rect := mkRect 50 500 90 512.
Definition notes_page : RecPage :=
  mkRecPage []
    [("Indoor Environmental Quality"%string, [ieq_heading]);
     ("Notes:"%string, [notes_above; notes_below])] [].

(** A three-page document whose first page holds the only "Signature" and
    "Date" labels, two billion units apart. *)
Definition sig_far : Rect := mkRect 50 0 120 10.
Definition date_far : Rect := mkRect 50 2e9 120 (2e9 + 10).
Definition far_page : RecPage :=
  mkRecPage [] [("Signature"%string, [sig_far]); ("Date"%string, [date_far])] [].
Definition blank_page : RecPage := mkRecPage [] [] [].
Definition far_doc : state RecPage := mkState [far_page; blank_page; blank_page] 0.

(** A signature page whose "Signature" and "Date" labels are 80 units
    apart. *)
Definition sig_label : Rect := mkRect 50 600 120 612.
Definition date_label : Rect := mkRect 50 680 90 692.
Definition label_page : RecPage :=
  mkRecPage [] [("Signature"%string, [sig_label]); ("Date"%string, [date_label])] [].

(** A paragraph with "(Name)" at y0 = 100 and two "(Date)" tokens, the
    first of them 4 units higher than the name, the second level with it. *)
Definition name_mark : Rect := mkRect 200 100 240 112.
Definition date_up : Rect := mkRect 300 96 340 108.
Definition date_level : Rect := mkRect 400 100 440 112.
Definition para_page : RecPage :=
  mkRecPage []
    [("(Name)"%string, [name_mark]); ("(Date)"%string, [date_up; date_level])] [].

(** A "(Date)" token 80 units higher than the name. *)
Definition date_high : Rect := mkRect 300 20 340 32.

(** Three pages: the first two hold standalone "Signature" and "Date"
    words, the third the exact phrase. *)
Definition words_page : RecPage :=
  mkRecPage [] [("Signature"%string, [sig_label]); ("Date"%string, [date_label])] [].
Definition stamp_page : RecPage :=
  mkRecPage []
    [("Signature & Stamp of Verifying Licensed Professional"%string,
      [mkRect 50 500 400 512]);
     ("Signature"%string, [mkRect 50 500 110 512])] [].
Definition stamp_doc : state RecPage :=
  mkState [words_page; words_page; stamp_page] 0.

(** ** The monad and its loops *)

Section Loops.
Context {Page : Type}.

Lemma bind_ok {A B} (m : M Page A) (k : A -> M Page B) st a st' :
  m st = Ok a st' -> (x <- m ;; k x) st = k a st'.
Proof. intros E. unfold bind. now rewrite E. Qed.

Lemma for_each_cons {A} (a : A) (l : list A) (body : A -> M Page unit) st :
  for_each (a :: l) body st = (body a ;; for_each l body) st.
Proof. reflexivity. Qed.

Lemma for_each_app {A} (l1 l2 : list A) (body : A -> M Page unit) st :
  for_each (l1 ++ l2) body st = (for_each l1 body ;; for_each l2 body) st.
Proof.
  revert st. induction l1 as [|a l1 IH]; intros st; simpl.
  - reflexivity.
  - unfold bind. destruct (body a st) as [[] st'|e]; [|reflexivity].
    rewrite IH. reflexivity.
Qed.

Lemma for_each_ext {A} (l : list A) (f g : A -> M Page unit) :
  (forall a st, In a l -> f a st = g a st) ->
  forall st, for_each l f st = for_each l g st.
Proof.
  induction l as [|a l IH]; intros E st; simpl; [reflexivity|].
  unfold bind. rewrite (E a st) by (now left).
  destruct (g a st) as [[] st'|e]; [|reflexivity].
  apply IH. intros; apply E; now right.
Qed.

Lemma for_each_filter {A} (keep : A -> bool) (l : list A) (body : A -> M Page unit) st :
  for_each l (fun a => if keep a then body a else ret tt) st
  = for_each (List.filter keep l) body st.
Proof.
  revert st. induction l as [|a l IH]; intros st; simpl; [reflexivity|].
  destruct (keep a); simpl.
  - unfold bind. destruct (body a st) as [[] st'|e]; [apply IH|reflexivity].
  - unfold bind, ret. apply IH.
Qed.

Lemma for_each_flat_map {A B} (f : A -> list B) (l : list A) (body : B -> M Page unit) st :
  for_each l (fun a => for_each (f a) body) st = for_each (flat_map f l) body st.
Proof.
  revert st. induction l as [|a l IH]; intros st; simpl; [reflexivity|].
  rewrite for_each_app. unfold bind.
  destruct (for_each (f a) body st) as [[] st'|e]; [apply IH|reflexivity].
Qed.

End Loops.

(** ** Pages of the document *)

Section Pages.
Context {Page : Type} `{Fitz Page}.

Lemma load_page_ok i p (st : state Page) :
  doc st !! i = Some p -> load_page i st = Ok p st.
Proof. intros E. unfold load_page. now rewrite E. Qed.

Lemma page_search_ok i p needle (st : state Page) :
  doc st !! i = Some p -> page_search i needle st = Ok (search_for p needle) st.
Proof. intros E. unfold page_search, bind. now rewrite (load_page_ok _ _ _ E). Qed.

Lemma update_page_ok i p f (st : state Page) :
  doc st !! i = Some p ->
  update_page i f st = Ok tt (mkState (<[i := f p]> (doc st)) (rng st)).
Proof. intros E. unfold update_page. now rewrite E. Qed.

Lemma update_page_twice i p f g (st : state Page) :
  doc st !! i = Some p ->
  (update_page i f ;; update_page i g) st
  = Ok tt (mkState (<[i := g (f p)]> (doc st)) (rng st)).
Proof.
  intros E. unfold bind. rewrite (update_page_ok _ _ _ _ E).
  assert (L : (i < length (doc st))%nat) by (eapply lookup_lt_Some; eauto).
  unfold update_page. simpl. rewrite list_lookup_insert_eq by exact L.
  now rewrite list_insert_insert_eq.
Qed.

Lemma update_page_same i p (st : state Page) :
  doc st !! i = Some p -> mkState (<[i := p]> (doc st)) (rng st) = st.
Proof.
  intros E. rewrite list_insert_id by exact E. now destruct st.
Qed.

Lemma page_in_range i (st : state Page) :
  (i < length (doc st))%nat -> exists p, doc st !! i = Some p.
Proof. intros L. now apply lookup_lt_is_Some_2. Qed.

(** A loop of queries that stops at the first result. *)
Lemma for_first_skip {A B} (l1 l2 : list A) (body : A -> M Page (option B)) st :
  (forall a, In a l1 -> body a st = Ok None st) ->
  for_first (l1 ++ l2) body st = for_first l2 body st.
Proof.
  induction l1 as [|a l1 IH]; simpl; intros E; [reflexivity|].
  unfold bind. rewrite (E a) by (now left). apply IH. intros; apply E; now right.
Qed.

Lemma for_first_none {A B} (l : list A) (body : A -> M Page (option B)) st :
  (forall a, In a l -> body a st = Ok None st) ->
  for_first l body st = Ok None st.
Proof.
  intros E. rewrite <- (app_nil_r l). now rewrite for_first_skip.
Qed.

Lemma for_first_query {A B} (l : list A) (body : A -> M Page (option B)) st :
  (forall a, In a l -> exists r, body a st = Ok r st) ->
  exists r, for_first l body st = Ok r st /\
            forall b, r = Some b -> exists a, In a l /\ body a st = Ok (Some b) st.
Proof.
  induction l as [|a l IH]; simpl; intros E.
  - exists None. split; [reflexivity|discriminate].
  - destruct (E a) as ([b|] & Ea); [now left| |].
    + exists (Some b). unfold bind. rewrite Ea. split; [reflexivity|].
      intros b' [= <-]. exists a. split; [now left|exact Ea].
    + destruct IH as (r & Er & Hr); [intros; apply E; now right|].
      exists r. unfold bind. rewrite Ea. split; [exact Er|].
      intros b Eb. destruct (Hr b Eb) as (a' & J & Ea'). exists a'. split; [now right|exact Ea'].
Qed.

End Pages.

(** ** Comparisons *)

Lemma Qlt_bool_iff (a b : Q) : Qlt_bool a b = true <-> a < b.
Proof.
  unfold Qlt_bool. rewrite negb_true_iff. split.
  - intros E. apply Qnot_le_lt. intros L. apply Qle_bool_iff in L. congruence.
  - intros L. destruct (Qle_bool b a) eqn:E; [|reflexivity].
    apply Qle_bool_iff in E. exfalso. exact (Qlt_not_le _ _ L E).
Qed.

Lemma Qlt_bool_false_iff (a b : Q) : Qlt_bool a b = false <-> b <= a.
Proof.
  unfold Qlt_bool. rewrite negb_false_iff. apply Qle_bool_iff.
Qed.

Lemma Qle_bool_false_iff (a b : Q) : Qle_bool a b = false <-> b < a.
Proof.
  rewrite <- Qlt_bool_iff. unfold Qlt_bool.
  destruct (Qle_bool a b); simpl; split; congruence.
Qed.

Lemma big_above_250 : 250 < big.
Proof. reflexivity. Qed.

(** ** Lines of words *)

Section Lines.

Lemma same_line_iff k w : same_line k w = true <-> k == line_key w.
Proof. apply Qeq_bool_iff. Qed.

Lemma insert_by_x0_perm w l : Permutation (insert_by_x0 w l) (w :: l).
Proof.
  induction l as [|v l IH]; simpl; [reflexivity|].
  destruct (Qle_bool (wx0 w) (wx0 v)); [reflexivity|].
  rewrite IH. apply perm_swap.
Qed.

Lemma sort_by_x0_perm l : Permutation (sort_by_x0 l) l.
Proof.
  induction l as [|w l IH]; simpl; [reflexivity|].
  rewrite insert_by_x0_perm. now rewrite IH.
Qed.

Lemma sort_by_x0_In l w : In w (sort_by_x0 l) <-> In w l.
Proof.
  split; apply Permutation_in; [|symmetry]; apply sort_by_x0_perm.
Qed.

Lemma setdefault_append_new key w b :
  ~ InA Qeq key (map fst b) ->
  setdefault_append key w b = b ++ [(key, [w])].
Proof.
  induction b as [|[k ws] b IH]; simpl; intros N; [reflexivity|].
  destruct (Qeq_bool k key) eqn:E.
  - exfalso. apply N. left. symmetry. now apply Qeq_bool_iff.
  - rewrite IH; [reflexivity|]. intros I. apply N. now right.
Qed.

Lemma setdefault_append_hit key w b :
  InA Qeq key (map fst b) ->
  exists b1 k ws b2,
    b = b1 ++ (k, ws) :: b2 /\ k == key /\
    ~ InA Qeq key (map fst b1) /\
    setdefault_append key w b = b1 ++ (k, ws ++ [w]) :: b2.
Proof.
  induction b as [|[k ws] b IH]; simpl; intros I.
  - inversion I.
  - destruct (Qeq_bool k key) eqn:E.
    + exists [], k, ws, b. apply Qeq_bool_iff in E.
      repeat split; auto. intros J; inversion J.
    + assert (I' : InA Qeq key (map fst b)).
      { inversion I as [? ? Ek|]; subst; [|assumption].
        exfalso. symmetry in Ek. apply Qeq_bool_iff in Ek. congruence. }
      destruct (IH I') as (b1 & k' & ws' & b2 & -> & Ek & N & ->).
      exists ((k, ws) :: b1), k', ws', b2. repeat split; auto.
      simpl. intros J. inversion J as [? ? Ek'|]; subst; [|auto].
      symmetry in Ek'. apply Qeq_bool_iff in Ek'. congruence.
Qed.

Lemma filter_none {A} (f : A -> bool) (l : list A) :
  (forall a, In a l -> f a = false) -> List.filter f l = [].
Proof.
  induction l as [|a l IH]; simpl; intros E; [reflexivity|].
  rewrite (E a) by (now left). apply IH. intros; apply E; now right.
Qed.

Lemma NoDupA_snoc (l : list Q) (x : Q) :
  NoDupA Qeq l -> ~ InA Qeq x l -> NoDupA Qeq (l ++ [x]).
Proof.
  induction l as [|a l IH]; simpl; intros D N.
  - constructor; [intros J; inversion J | constructor].
  - inversion D as [|? ? Na Dl]; subst. constructor.
    + intros J. apply InA_app in J as [J|J]; [auto|].
      inversion J as [? ? E|? ? J']; subst; [|inversion J'].
      apply N. left. now symmetry.
    + apply IH; [assumption|]. intros J. apply N. now right.
Qed.

Lemma NoDupA_mid_tail (l1 l2 : list Q) (x : Q) :
  NoDupA Qeq (l1 ++ x :: l2) -> ~ InA Qeq x l2.
Proof.
  induction l1 as [|a l1 IH]; simpl; intros D; inversion D; subst; auto.
Qed.

Lemma buckets_ok_step seen b w :
  buckets_ok seen b ->
  buckets_ok (seen ++ [w]) (setdefault_append (line_key w) w b).
Proof.
  intros [Hc Hd Hv].
  destruct (InA_dec Qeq_dec (line_key w) (map fst b)) as [I|N].
  - destruct (setdefault_append_hit _ w _ I) as (b1 & k & ws & b2 & Eb & Ek & N1 & ->).
    subst b. rewrite map_app in Hd, Hv. simpl in Hd, Hv.
    assert (Hother : forall k' ws', In (k', ws') (b1 ++ b2) -> same_line k' w = false).
    { intros k' ws' J. destruct (same_line k' w) eqn:E; [|reflexivity]. exfalso.
      apply same_line_iff in E.
      apply in_app_or in J as [J|J].
      - apply N1. apply InA_alt. exists k'. split; [now symmetry|].
        change k' with (fst (k', ws')). now apply in_map.
      - apply (NoDupA_mid_tail _ _ _ Hd). apply InA_alt.
        exists k'. split; [rewrite Ek; now symmetry|].
        change k' with (fst (k', ws')). now apply in_map. }
    constructor.
    + intros k' ws' J. rewrite List.filter_app. simpl.
      apply in_app_or in J as [J|[J|J]].
      * rewrite (Hother k' ws') by (apply in_or_app; now left).
        rewrite app_nil_r. apply Hc. apply in_or_app. now left.
      * inversion J; subst k' ws'.
        assert (E : same_line k w = true) by now apply same_line_iff.
        rewrite E. f_equal. apply Hc. apply in_or_app. right. now left.
      * rewrite (Hother k' ws') by (apply in_or_app; now right).
        rewrite app_nil_r. apply Hc. apply in_or_app. right. now right.
    + rewrite map_app. simpl. exact Hd.
    + intros u J. rewrite map_app. simpl.
      apply in_app_or in J as [J|[<-|[]]]; [now apply Hv|].
      apply InA_app_iff. right. left. now symmetry.
  - rewrite setdefault_append_new by assumption.
    constructor.
    + intros k' ws' J. rewrite List.filter_app. simpl.
      apply in_app_or in J as [J|[J|[]]].
      * assert (E : same_line k' w = false).
        { destruct (same_line k' w) eqn:E; [|reflexivity]. exfalso.
          apply same_line_iff in E. apply N. apply InA_alt.
          exists k'. split; [now symmetry|].
          change k' with (fst (k', ws')). now apply in_map. }
        rewrite E, app_nil_r. now apply Hc.
      * inversion J; subst k' ws'.
        assert (E : same_line (line_key w) w = true) by (apply same_line_iff; reflexivity).
        rewrite E. rewrite filter_none; [reflexivity|].
        intros u Ju. destruct (same_line (line_key w) u) eqn:Eu; [|reflexivity].
        exfalso. apply same_line_iff in Eu. apply N.
        rewrite Eu. now apply Hv.
    + rewrite map_app. simpl. now apply NoDupA_snoc.
    + intros u J. rewrite map_app. simpl. apply InA_app_iff.
      apply in_app_or in J as [J|[<-|[]]]; [left; now apply Hv|].
      right. left. reflexivity.
Qed.

Lemma line_buckets_ok words : buckets_ok words (line_buckets words).
Proof.
  unfold line_buckets.
  assert (G : forall l seen b, buckets_ok seen b ->
            buckets_ok (seen ++ l)
              (fold_left (fun buckets w => setdefault_append (line_key w) w buckets) l b)).
  { induction l as [|w l IH]; intros seen b Hb; simpl.
    - now rewrite app_nil_r.
    - replace (seen ++ w :: l) with ((seen ++ [w]) ++ l)
        by (now rewrite <- app_assoc).
      apply IH. now apply buckets_ok_step. }
  apply (G words [] []). constructor.
  - intros k ws [].
  - constructor.
  - intros w [].
Qed.

(** The words of a bucket are the words of the page on its line. *)
Lemma bucket_words words k ws w :
  In (k, ws) (line_buckets words) ->
  In w ws <-> In w words /\ k == line_key w.
Proof.
  intros J. rewrite (bk_content _ _ (line_buckets_ok words) _ _ J).
  rewrite filter_In, same_line_iff. reflexivity.
Qed.

(** *** The search for the "No" to the right *)

Lemma right_no_step_iff x1 ww :
  is_no ww && Qlt_bool x1 (wx0 ww) && (Qle_bool 30 (wx0 ww - x1) && Qle_bool (wx0 ww - x1) 250) = true
  <-> right_no_ok x1 ww.
Proof.
  unfold right_no_ok, is_no.
  rewrite !andb_true_iff, String.eqb_eq, Qlt_bool_iff, !Qle_bool_iff. tauto.
Qed.

Lemma scan_right_no_inv x1 line_words :
  right_no_inv x1 line_words (scan_right_no x1 line_words).
Proof.
  unfold scan_right_no.
  set (step := fun (acc : option Word * Q) ww => _).
  assert (G : forall l prefix acc, right_no_inv x1 prefix acc ->
            right_no_inv x1 (prefix ++ l) (fold_left step l acc)).
  { induction l as [|ww l IH]; intros prefix acc Hacc; simpl.
    - now rewrite app_nil_r.
    - replace (prefix ++ ww :: l) with ((prefix ++ [ww]) ++ l)
        by (now rewrite <- app_assoc).
      apply IH. clear IH. destruct acc as [right_no min_dx].
      unfold step, right_no_inv in *. simpl in *.
      destruct (is_no ww && Qlt_bool x1 (wx0 ww)) eqn:E1;
        [destruct (Qle_bool 30 (wx0 ww - x1) && Qle_bool (wx0 ww - x1) 250) eqn:E2|].
      + assert (Hok : right_no_ok x1 ww) by (apply right_no_step_iff; now rewrite E1, E2).
        destruct (Qlt_bool (wx0 ww - x1) min_dx) eqn:E3; simpl.
        * apply Qlt_bool_iff in E3. repeat split; try apply Hok.
          -- apply in_or_app. right. now left.
          -- intros v Jv Hv. apply in_app_or in Jv as [Jv|[<-|[]]]; [|apply Qle_refl].
             destruct right_no as [no|].
             ++ destruct Hacc as (_ & _ & _ & Hmin).
                apply Qlt_le_weak. eapply Qlt_le_trans; [exact E3|]. now apply Hmin.
             ++ destruct Hacc as (_ & Hnone). exfalso. exact (Hnone v Jv Hv).
        * apply Qlt_bool_false_iff in E3. destruct right_no as [no|].
          -- destruct Hacc as (Jno & Hno & Emin & Hmin). repeat split; try apply Hno; auto.
             ++ apply in_or_app. now left.
             ++ intros v Jv Hv. apply in_app_or in Jv as [Jv|[<-|[]]]; auto.
          -- destruct Hacc as (-> & _). exfalso.
             destruct Hok as (_ & _ & _ & Hle).
             pose proof big_above_250. lra.
      + assert (Hnot : ~ right_no_ok x1 ww).
        { intros Hok. apply right_no_step_iff in Hok. rewrite E1, E2 in Hok. discriminate. }
        simpl. destruct right_no as [no|].
        * destruct Hacc as (Jno & Hno & Emin & Hmin). repeat split; try apply Hno; auto.
          -- apply in_or_app. now left.
          -- intros v Jv Hv. apply in_app_or in Jv as [Jv|[<-|[]]]; auto. contradiction.
        * destruct Hacc as (-> & Hnone). split; [reflexivity|].
          intros v Jv Hv. apply in_app_or in Jv as [Jv|[<-|[]]]; [exact (Hnone v Jv Hv)|contradiction].
      + assert (Hnot : ~ right_no_ok x1 ww).
        { intros Hok. apply right_no_step_iff in Hok. rewrite E1 in Hok. discriminate. }
        destruct right_no as [no|].
        * destruct Hacc as (Jno & Hno & Emin & Hmin). repeat split; try apply Hno; auto.
          -- apply in_or_app. now left.
          -- intros v Jv Hv. apply in_app_or in Jv as [Jv|[<-|[]]]; auto. contradiction.
        * destruct Hacc as (-> & Hnone). split; [reflexivity|].
          intros v Jv Hv. apply in_app_or in Jv as [Jv|[<-|[]]]; [exact (Hnone v Jv Hv)|contradiction]. }
  apply (G line_words [] (None, big)). simpl. split; [reflexivity|]. intros ww [].
Qed.

(** *** The search for the left neighbour *)

Lemma left_adjacent_iff x0 ww :
  Qle_bool (wx1 ww) x0 && Qlt_bool (x0 - wx1 ww) 25 = true <-> left_adjacent x0 ww.
Proof.
  unfold left_adjacent. rewrite andb_true_iff, Qle_bool_iff, Qlt_bool_iff. tauto.
Qed.

Lemma scan_left_neighbor_inv x0 line_words :
  left_neighbor_inv x0 line_words (scan_left_neighbor x0 line_words).
Proof.
  unfold scan_left_neighbor.
  set (step := fun (left_neighbor : option Word) ww => _).
  assert (G : forall l prefix acc, left_neighbor_inv x0 prefix acc ->
            left_neighbor_inv x0 (prefix ++ l) (fold_left step l acc)).
  { induction l as [|ww l IH]; intros prefix acc Hacc; simpl.
    - now rewrite app_nil_r.
    - replace (prefix ++ ww :: l) with ((prefix ++ [ww]) ++ l)
        by (now rewrite <- app_assoc).
      apply IH. clear IH. unfold step, left_neighbor_inv in *.
      destruct (Qle_bool (wx1 ww) x0 && Qlt_bool (x0 - wx1 ww) 25) eqn:E.
      + apply left_adjacent_iff in E. destruct acc as [ln|].
        * destruct Hacc as (Jln & Hln & Hmax).
          destruct (Qlt_bool (wx1 ln) (wx1 ww)) eqn:E2.
          -- apply Qlt_bool_iff in E2. repeat split; try apply E.
             ++ apply in_or_app. right. now left.
             ++ intros v Jv Hv. apply in_app_or in Jv as [Jv|[<-|[]]]; [|apply Qle_refl].
                specialize (Hmax v Jv Hv). lra.
          -- apply Qlt_bool_false_iff in E2. repeat split; try apply Hln.
             ++ apply in_or_app. now left.
             ++ intros v Jv Hv. apply in_app_or in Jv as [Jv|[<-|[]]]; auto.
        * repeat split; try apply E.
          -- apply in_or_app. right. now left.
          -- intros v Jv Hv. apply in_app_or in Jv as [Jv|[<-|[]]]; [|apply Qle_refl].
             exfalso. exact (Hacc v Jv Hv).
      + assert (Hnot : ~ left_adjacent x0 ww).
        { intros Hadj. apply left_adjacent_iff in Hadj. congruence. }
        destruct acc as [ln|].
        * destruct Hacc as (Jln & Hln & Hmax). repeat split; try apply Hln.
          -- apply in_or_app. now left.
          -- intros v Jv Hv. apply in_app_or in Jv as [Jv|[<-|[]]]; auto. contradiction.
        * intros v Jv Hv. apply in_app_or in Jv as [Jv|[<-|[]]]; [exact (Hacc v Jv Hv)|contradiction]. }
  apply (G line_words [] None). intros ww [].
Qed.

Lemma numeric_text_iff t : any_digit t || has_percent t = true <-> numeric_text t.
Proof.
  unfold numeric_text, any_digit, has_percent.
  rewrite orb_true_iff, !existsb_exists. split.
  - intros [(ch & J & D)|(ch & J & E)]; [left; eauto|right].
    apply Ascii.eqb_eq in E. now subst ch.
  - intros [(ch & J & D)|J]; [left; eauto|right].
    exists "%"%char. split; [exact J|apply Ascii.eqb_refl].
Qed.

End Lines.

(** ** The marker draws the marks of the page *)

Section Marker.
Context {Page : Type} `{Fitz Page}.
Variable random : nat -> Q.

Lemma mark_yes_word_checkbox idx x_offset box width thr line_words w st :
  mark_yes_word random idx x_offset box width thr line_words (existsb is_no line_words) w st
  = (if checkbox_label thr line_words w
     then draw_x random idx x_offset box width w else ret tt) st.
Proof.
  unfold mark_yes_word, checkbox_label.
  destruct (ieq_skip thr w); simpl; [reflexivity|].
  destruct (existsb is_no line_words); simpl; [|reflexivity].
  destruct (fst (scan_right_no (wx1 w) line_words)); simpl; [|reflexivity].
  destruct (numeric_left (scan_left_neighbor (wx0 w) line_words)); reflexivity.
Qed.

Lemma mark_line_draws idx x_offset box width thr bucket st :
  mark_line random idx x_offset box width thr bucket st
  = draw_marks random idx x_offset box width (marked_in_line thr bucket) st.
Proof.
  unfold mark_line, draw_marks, marked_in_line. cbv zeta.
  rewrite <- (for_each_filter (checkbox_label thr (sort_by_x0 bucket))).
  apply for_each_ext.
  intros w st' _. apply mark_yes_word_checkbox.
Qed.

Lemma mark_page_draws idx x_offset box width skip page st :
  mark_page random idx x_offset box width skip page st
  = draw_marks random idx x_offset box width
      (marked_on_page (y_threshold skip idx) (get_text_words page)) st.
Proof.
  unfold mark_page, draw_marks, marked_on_page.
  destruct (get_text_words page) as [|w words] eqn:E; [reflexivity|].
  rewrite <- for_each_flat_map. apply for_each_ext.
  intros kv st' _. apply mark_line_draws.
Qed.

(** One X: four draws of the generator, two red diagonals of the square of
    side [b] centred at [(cx, cy)]. *)
Lemma draw_x_result (st : state Page) idx page x_offset box width w :
  doc st !! idx = Some page ->
  let cx := wx0 w - (x_offset + (-1.5 + (1.5 - -1.5) * random (rng st))) in
  let cy := wy0 w + (wy1 w - wy0 w) / 2 + (-1.2 + (1.2 - -1.2) * random (S (rng st))) in
  let b := py_max 7.5 (box + (-1.0 + (1.2 - -1.0) * random (S (S (rng st))))) in
  let wline := py_max 0.9 (width + (-0.2 + (0.25 - -0.2) * random (S (S (S (rng st)))))) in
  draw_x random idx x_offset box width w st
  = Ok tt (mkState
             (<[idx := draw_line (cx - b / 2, cy + b / 2) (cx + b / 2, cy - b / 2) red wline
                         (draw_line (cx - b / 2, cy - b / 2) (cx + b / 2, cy + b / 2)
                            red wline page)]> (doc st))
             (S (S (S (S (rng st)))))).
Proof.
  intros E cx cy b wline. unfold draw_x.
  do 4 (rewrite (bind_ok (uniform random _ _) _ _ _ _ eq_refl); cbn [doc rng]).
  cbv beta iota. fold cx cy b wline.
  now rewrite (update_page_twice idx page _ _
                 (mkState (doc st) (S (S (S (S (rng st)))))) E).
Qed.

(** The marks of one page: only that page changes, and nothing raises. *)
Lemma draw_marks_frame idx x_offset box width marks (st : state Page) page :
  doc st !! idx = Some page ->
  exists page' draws',
    draw_marks random idx x_offset box width marks st
    = Ok tt (mkState (<[idx := page']> (doc st)) draws').
Proof.
  revert st page. induction marks as [|w marks IH]; intros st page E.
  - exists page, (rng st). unfold draw_marks. simpl. unfold ret.
    now rewrite (update_page_same _ _ _ E).
  - unfold draw_marks. rewrite for_each_cons.
    rewrite (bind_ok _ _ st tt _ (draw_x_result st idx page x_offset box width w E)).
    assert (L : (idx < length (doc st))%nat) by (eapply lookup_lt_Some; eauto).
    match goal with |- context [for_each marks _ ?st1] =>
      destruct (IH st1 _ (list_lookup_insert_eq _ _ _ L)) as (page' & draws' & E')
    end.
    exists page', draws'. unfold draw_marks in E'. rewrite E'. simpl.
    now rewrite list_insert_insert_eq.
Qed.

(** The marker, page after page: each page gets the marks of the words it
    had when the marker started. *)
Lemma marker_draws_marks x_offset box width skip (st : state Page) :
  mark_yes_boxes_red random x_offset box width (Some skip) st
  = for_each (seq 0 (length (doc st)))
      (draw_page_marks random x_offset box width skip st) st.
Proof.
  unfold mark_yes_boxes_red. rewrite (bind_ok len_doc _ st _ st eq_refl).
  cbn [default]. unfold id.
  assert (G : forall m k (st_k : state Page),
            (k + m <= length (doc st))%nat ->
            length (doc st_k) = length (doc st) ->
            (forall j, (k <= j)%nat -> doc st_k !! j = doc st !! j) ->
            for_each (seq k m)
              (fun idx => page <- load_page idx ;;
                          mark_page random idx x_offset box width skip page) st_k
            = for_each (seq k m) (draw_page_marks random x_offset box width skip st) st_k).
  { induction m as [|m IH]; intros k st_k Hk Hlen Hsame; [reflexivity|].
    cbn [seq]. rewrite !for_each_cons.
    destruct (page_in_range k st) as [page E]; [lia|].
    assert (E_k : doc st_k !! k = Some page) by (now rewrite Hsame).
    unfold draw_page_marks at 1. rewrite E.
    destruct (draw_marks_frame k x_offset box width
                (marked_on_page (y_threshold skip k) (get_text_words page)) st_k page E_k)
      as (page' & draws' & Edraw).
    rewrite (bind_ok _ _ st_k tt _ Edraw).
    rewrite (bind_ok _ _ st_k tt (mkState (<[k := page']> (doc st_k)) draws')).
    - apply IH; [lia|simpl; now rewrite length_insert|].
      intros j Hj. simpl. rewrite list_lookup_insert_ne by lia. apply Hsame. lia.
    - rewrite (bind_ok _ _ st_k page st_k (load_page_ok _ _ _ E_k)).
      now rewrite mark_page_draws. }
  apply G; auto.
Qed.

End Marker.

(** ** Properties of the Checkbox Marker *)

Section MarkerProperties.
Context {Page : Type} `{Fitz Page}.
Variable random : nat -> Q.

(** A mark comes from a bucket of the page, and passed the tests there. *)
Lemma marked_on_page_inv thr words w :
  In w (marked_on_page thr words) ->
  exists k ws, In (k, ws) (line_buckets words) /\ In w ws /\ is_yes w = true /\
               checkbox_label thr (sort_by_x0 ws) w = true.
Proof.
  unfold marked_on_page, marked_in_line. intros J.
  apply in_flat_map in J as ([k ws] & Jb & J). simpl in J.
  apply filter_In in J as (J & Hc). apply filter_In in J as (J & Hy).
  exists k, ws. repeat split; auto. now apply sort_by_x0_In.
Qed.

(** C1: the marker draws, page after page, an X for each word of
    [marked_on_page] and nothing else; and each of these words is a "Yes"
    word of the page for which some "No" word of the same line (equal keys
    of the half-unit rounding) starts strictly right of its right edge, at
    a gap between 30 and 250 inclusive.  So a "Yes" without such a "No"
    (gap below 30, above 250, or no "No" to its right) gets no mark. *)
Theorem yes_marked_only_with_paired_no :
  forall x_offset box width skip,
    (forall st : state Page,
       mark_yes_boxes_red random x_offset box width (Some skip) st
       = for_each (seq 0 (length (doc st)))
           (draw_page_marks random x_offset box width skip st) st) /\
    (forall idx (page : Page) w,
       In w (marked_on_page (y_threshold skip idx) (get_text_words page)) ->
       In w (get_text_words page) /\ wtxt w = "Yes"%string /\
       exists no, In no (get_text_words page) /\ line_key no == line_key w /\
                  wtxt no = "No"%string /\ wx1 w < wx0 no /\
                  30 <= wx0 no - wx1 w /\ wx0 no - wx1 w <= 250).
Proof.
  intros x_offset box width skip. split.
  - intros st. apply marker_draws_marks.
  - intros idx page w J.
    apply marked_on_page_inv in J as (k & ws & Jb & Jw & Hy & Hc).
    pose proof (proj1 (bucket_words _ _ _ w Jb) Jw) as (Jw' & Ek).
    split; [exact Jw'|]. split; [now apply String.eqb_eq|].
    unfold checkbox_label in Hc. rewrite !andb_true_iff in Hc.
    destruct Hc as (((_ & _) & Hr) & _).
    pose proof (scan_right_no_inv (wx1 w) (sort_by_x0 ws)) as Hinv.
    unfold right_no_inv in Hinv.
    destruct (fst (scan_right_no (wx1 w) (sort_by_x0 ws))) as [no|]; [|discriminate].
    destruct Hinv as (Jno & (Ht & Hx & Hlo & Hhi) & _).
    apply (proj1 (sort_by_x0_In _ _)) in Jno.
    pose proof (proj1 (bucket_words _ _ _ no Jb) Jno) as (Jno' & Ekno).
    exists no. repeat split; auto. now rewrite <- Ek, <- Ekno.
Qed.

(** C8: the marker draws exactly the words of [marked_on_page], and a word
    is never among them when its immediate left neighbour on the line holds
    a digit or a percent sign: [ln] ends at or before the word's left edge,
    less than 25 units away, and every word of the line within that reach
    either ends farther left than [ln] or is numeric as well.  Whether a
    "No" follows on the line plays no part. *)
Theorem numeric_left_neighbor_blocks_mark :
  forall x_offset box width skip,
    (forall st : state Page,
       mark_yes_boxes_red random x_offset box width (Some skip) st
       = for_each (seq 0 (length (doc st)))
           (draw_page_marks random x_offset box width skip st) st) /\
    (forall idx (page : Page) w ln,
       In ln (get_text_words page) -> line_key ln == line_key w ->
       left_adjacent (wx0 w) ln ->
       numeric_text (wtxt ln) ->
       (forall ww, In ww (get_text_words page) -> line_key ww == line_key w ->
                   left_adjacent (wx0 w) ww ->
                   wx1 ww < wx1 ln \/ numeric_text (wtxt ww)) ->
       ~ In w (marked_on_page (y_threshold skip idx) (get_text_words page))).
Proof.
  intros x_offset box width skip. split.
  - intros st. apply marker_draws_marks.
  - intros idx page w ln Jln Eln Hadj Hnum Hnear J.
    apply marked_on_page_inv in J as (k & ws & Jb & Jw & Hy & Hc).
    pose proof (proj1 (bucket_words _ _ _ w Jb) Jw) as (Jw' & Ek).
    assert (Jln' : In ln (sort_by_x0 ws)).
    { apply sort_by_x0_In. apply (bucket_words _ _ _ ln Jb). split; [exact Jln|].
      now rewrite Ek, Eln. }
    unfold checkbox_label in Hc. rewrite !andb_true_iff in Hc.
    destruct Hc as (_ & Hl). apply negb_true_iff in Hl.
    pose proof (scan_left_neighbor_inv (wx0 w) (sort_by_x0 ws)) as Hinv.
    unfold left_neighbor_inv in Hinv.
    destruct (scan_left_neighbor (wx0 w) (sort_by_x0 ws)) as [c|].
    + destruct Hinv as (Jc & Hc & Hmax).
      apply (proj1 (sort_by_x0_In _ _)) in Jc.
      pose proof (proj1 (bucket_words _ _ _ c Jb) Jc) as (Jc' & Ekc).
      assert (Ec : line_key c == line_key w) by (now rewrite <- Ek, <- Ekc).
      destruct (Hnear c Jc' Ec Hc) as [Lt|Nc].
      * specialize (Hmax ln Jln' Hadj). lra.
      * apply numeric_text_iff in Nc. simpl in Hl. congruence.
    + exact (Hinv ln Jln' Hadj).
Qed.

(** The marks under a boundary are the marks without boundary that lie
    above it. *)
Lemma checkbox_label_above t line_words w :
  checkbox_label (Some t) line_words w
  = Qlt_bool (wy0 w) (t - 2) && checkbox_label None line_words w.
Proof.
  unfold checkbox_label, Qlt_bool. simpl. now rewrite <- !andb_assoc.
Qed.

Lemma filter_filter_and {A} (f g : A -> bool) (l : list A) :
  List.filter (fun a => f a && g a) l = List.filter f (List.filter g l).
Proof.
  induction l as [|a l IH]; simpl; [reflexivity|].
  destruct (g a); simpl.
  - rewrite andb_true_r. destruct (f a); now rewrite IH.
  - now rewrite andb_false_r.
Qed.

Lemma filter_flat_map {A B} (f : B -> bool) (g : A -> list B) (l : list A) :
  List.filter f (flat_map g l) = flat_map (fun a => List.filter f (g a)) l.
Proof.
  induction l as [|a l IH]; simpl; [reflexivity|].
  now rewrite List.filter_app, IH.
Qed.

Lemma marked_on_page_above t words :
  marked_on_page (Some t) words
  = List.filter (fun w => Qlt_bool (wy0 w) (t - 2)) (marked_on_page None words).
Proof.
  unfold marked_on_page. rewrite filter_flat_map. apply flat_map_ext.
  intros [k ws]. unfold marked_in_line. simpl.
  rewrite <- (filter_filter_and (fun w => Qlt_bool (wy0 w) (t - 2))
                (checkbox_label None (sort_by_x0 ws))).
  apply filter_ext.
  intros w. apply checkbox_label_above.
Qed.

Lemma marked_on_page_incl thr words w :
  In w (marked_on_page thr words) -> In w (marked_on_page None words).
Proof.
  destruct thr as [t|]; [|auto]. rewrite marked_on_page_above.
  intros J. now apply filter_In in J.
Qed.

(** The threshold a page has when its recorded rectangle is not all zeros.
    On a page whose threshold the marker reads as [t], the marks are those
    the page has without one whose top is strictly above [t - 2]; on a page
    without an entry in the boundary map nothing is filtered. *)
Lemma ieq_boundary_suppresses_marks :
  forall x_offset box width skip,
    (forall st : state Page,
       mark_yes_boxes_red random x_offset box width (Some skip) st
       = for_each (seq 0 (length (doc st)))
           (draw_page_marks random x_offset box width skip st) st) /\
    (forall idx (page : Page) t,
       y_threshold skip idx = Some t ->
       let marks := marked_on_page (y_threshold skip idx) (get_text_words page) in
       let unfiltered := marked_on_page None (get_text_words page) in
       (forall w, In w marks <-> In w unfiltered /\ wy0 w < t - 2) /\
       (t == 400 ->
        forall w, In w unfiltered ->
                  (wy0 w == 410 -> ~ In w marks) /\ (wy0 w == 390 -> In w marks))) /\
    (forall idx (page : Page),
       skip !! idx = None ->
       forall thr w, In w (marked_on_page thr (get_text_words page)) ->
                     In w (marked_on_page (y_threshold skip idx) (get_text_words page))) /\
    (forall idx r,
       skip !! idx = Some r -> rect_bool r = true ->
       y_threshold skip idx = Some (y0 r)).
Proof.
  intros x_offset box width skip. split; [|split; [|split]].
  4:{ intros idx r E Hr. unfold y_threshold. now rewrite E, Hr. }
  - intros st. apply marker_draws_marks.
  - intros idx page t Et marks unfiltered.
    assert (Hiff : forall w, In w marks <-> In w unfiltered /\ wy0 w < t - 2).
    { intros w. unfold marks, unfiltered.
      rewrite Et, marked_on_page_above, filter_In, Qlt_bool_iff.
      reflexivity. }
    split; [exact Hiff|].
    intros E400 w Jw. split; intros Ey.
    + intros J. apply Hiff in J as (_ & L). lra.
    + apply Hiff. split; [exact Jw|lra].
  - intros idx page Enone thr w J. unfold y_threshold. rewrite Enone.
    now apply marked_on_page_incl in J.
Qed.

End MarkerProperties.

(** *** The marker on the sample pages *)

Lemma yes_marked_only_with_paired_no_witness :
  In yes_word (marked_on_page None (rec_words yes_no_page)) /\
  exists no, In no (rec_words yes_no_page) /\ line_key no == line_key yes_word /\
             wtxt no = "No"%string /\ wx1 yes_word < wx0 no /\
             30 <= wx0 no - wx1 yes_word /\ wx0 no - wx1 yes_word <= 250.
Proof.
  assert (J : In yes_word (marked_on_page None (rec_words yes_no_page)))
    by (vm_compute; left; reflexivity).
  split; [exact J|].
  exact (proj2 (proj2 (proj2 (yes_marked_only_with_paired_no half_random 9 10 1.2 ∅)
                         0%nat yes_no_page yes_word J))).
Defined.

Lemma numeric_left_neighbor_blocks_mark_witness :
  left_adjacent (wx0 yes_word) percent_word /\
  numeric_text (wtxt percent_word) /\
  ~ In yes_word (marked_on_page None (rec_words percent_page)).
Proof.
  assert (Hadj : left_adjacent (wx0 yes_word) percent_word)
    by (unfold left_adjacent; simpl; lra).
  assert (Hnum : numeric_text (wtxt percent_word))
    by (right; vm_compute; tauto).
  split; [exact Hadj|]. split; [exact Hnum|].
  intros J.
  refine (proj2 (numeric_left_neighbor_blocks_mark half_random 9 10 1.2 ∅)
                0%nat percent_page yes_word percent_word _ _ Hadj Hnum _ J).
  - now left.
  - reflexivity.
  - intros ww [<-|[<-|[<-|[]]]] _ [Hle _].
    + now right.
    + exfalso. revert Hle. vm_compute. auto.
    + exfalso. revert Hle. vm_compute. auto.
Defined.

Lemma ieq_boundary_suppresses_marks_witness :
  y_threshold {[ 0%nat := ieq_heading ]} 0 = Some 400 /\
  In yes_above (marked_on_page (Some 400) (rec_words ieq_page)) /\
  ~ In yes_below (marked_on_page (Some 400) (rec_words ieq_page)).
Proof.
  assert (Et : y_threshold {[ 0%nat := ieq_heading ]} 0 = Some 400) by reflexivity.
  split; [exact Et|].
  pose proof (proj2 (proj1 (proj2 (ieq_boundary_suppresses_marks
                half_random 9 10 1.2 {[ 0%nat := ieq_heading ]}))
                0%nat ieq_page 400 Et) (Qeq_refl 400)) as Hscn.
  split.
  - apply (Hscn yes_above); [vm_compute; tauto | reflexivity].
  - apply (Hscn yes_below); [vm_compute; tauto | reflexivity].
Defined.

(** ** Properties of the Section Locator *)

Section Locator.
Context {Page : Type} `{Fitz Page}.

Local Abbreviation heading := ("Indoor Environmental Quality"%string).

Lemma locator_loop (st : state Page) pages k (acc : gmap nat Rect) :
  (forall j p, pages !! j = Some p -> doc st !! (k + j)%nat = Some p) ->
  exists sections,
    for_fold (seq k (length pages))
      (fun (sections : gmap nat Rect) i =>
         rects <- page_search i heading ;;
         match rects with
         | r :: _ => ret (<[i := r]> sections)
         | [] => ret sections
         end) acc st
    = Ok sections st /\
    forall i, sections !! i
              = if decide (k <= i)%nat
                then match pages !! (i - k)%nat with
                     | Some p => match first_heading p with
                                 | Some r => Some r
                                 | None => acc !! i
                                 end
                     | None => acc !! i
                     end
                else acc !! i.
Proof.
  revert k acc. induction pages as [|p pages IH]; intros k acc Hpages.
  - exists acc. split; [reflexivity|]. intros i. now destruct (decide (k <= i)%nat).
  - simpl length. simpl seq. cbn [for_fold].
    assert (Ek : doc st !! k = Some p).
    { specialize (Hpages 0%nat p eq_refl). now rewrite Nat.add_0_r in Hpages. }
    rewrite (bind_ok _ _ st
               (match search_for p heading with
                | r :: _ => <[k := r]> acc
                | [] => acc
                end) st).
    2:{ rewrite (bind_ok _ _ st _ st (page_search_ok _ _ heading _ Ek)).
        now destruct (search_for p heading). }
    destruct (IH (S k) (match search_for p heading with
                        | r :: _ => <[k := r]> acc
                        | [] => acc
                        end)) as (sections & E & Hlook).
    { intros j p' Ej. replace (S k + j)%nat with (k + S j)%nat by lia.
      now apply Hpages. }
    exists sections. split; [exact E|]. intros i. rewrite Hlook.
    unfold first_heading.
    destruct (decide (S k <= i)%nat) as [L|L]; destruct (decide (k <= i)%nat) as [L'|L'];
      try lia.
    + replace (i - k)%nat with (S (i - S k)) by lia. simpl.
      destruct (pages !! (i - S k)%nat) as [p'|].
      * destruct (head (search_for p' heading)); [reflexivity|].
        destruct (search_for p heading); [reflexivity|].
        apply lookup_insert_ne. lia.
      * destruct (search_for p heading); [reflexivity|].
        apply lookup_insert_ne. lia.
    + assert (i = k) by lia. subst i. rewrite Nat.sub_diag. simpl.
      destruct (search_for p heading); simpl; [reflexivity|].
      apply lookup_insert_eq.
    + destruct (search_for p heading); [reflexivity|].
      apply lookup_insert_ne. lia.
Qed.

(** The Section Locator is a query, and records for each page the first
    hit of the heading. *)
Lemma find_ieq_sections_query (st : state Page) :
  exists sections,
    find_ieq_sections st = Ok sections st /\
    forall i, sections !! i = doc st !! i ≫= first_heading.
Proof.
  unfold find_ieq_sections.
  rewrite (bind_ok len_doc _ st (length (doc st)) st eq_refl).
  destruct (locator_loop st (doc st) 0 ∅ (fun j p E => E)) as (sections & E & Hlook).
  exists sections. split; [exact E|]. intros i. rewrite Hlook.
  destruct (decide (0 <= i)%nat); [|lia]. rewrite Nat.sub_0_r.
  destruct (doc st !! i) as [p|]; simpl; [|apply lookup_empty].
  destruct (first_heading p); [reflexivity|apply lookup_empty].
Qed.


(** The boundaries recorded are on pages of the document. *)
Lemma find_ieq_sections_range (st : state Page) sections i r :
  find_ieq_sections st = Ok sections st -> sections !! i = Some r ->
  (i < length (doc st))%nat.
Proof.
  intros E Ei. destruct (find_ieq_sections_query st) as (sections' & E' & Hlook).
  rewrite E in E'. inversion E'; subst sections'.
  rewrite Hlook in Ei. destruct (doc st !! i) as [p|] eqn:Ep; [|discriminate].
  eapply lookup_lt_Some; eauto.
Qed.

End Locator.

(** ** Properties of the Notes Filler *)

Section NotesProperties.
Context {Page : Type} `{Fitz Page}.

Lemma insert_by_key_perm kv l : Permutation (insert_by_key kv l) (kv :: l).
Proof.
  induction l as [|kv' l IH]; simpl; [reflexivity|].
  destruct (fst kv <=? fst kv')%nat; [reflexivity|].
  rewrite IH. apply perm_swap.
Qed.

Lemma sorted_items_perm (m : gmap nat Rect) :
  Permutation (sorted_items m) (map_to_list m).
Proof.
  unfold sorted_items. induction (map_to_list m) as [|kv l IH]; simpl; [reflexivity|].
  rewrite insert_by_key_perm. now rewrite IH.
Qed.

Lemma insert_by_key_sorted kv l :
  StronglySorted (fun a b => (fst a <= fst b)%nat) l ->
  StronglySorted (fun a b => (fst a <= fst b)%nat) (insert_by_key kv l).
Proof.
  induction l as [|kv' l IH]; simpl; intros S.
  - repeat constructor.
  - inversion S as [|? ? Sl Fl]; subst.
    destruct (fst kv <=? fst kv')%nat eqn:E.
    + apply Nat.leb_le in E. constructor; [exact S|].
      constructor; [exact E|].
      rewrite Forall_forall in Fl |- *. intros b J. specialize (Fl b J). lia.
    + apply Nat.leb_gt in E. constructor; [now apply IH|].
      eapply Permutation_Forall; [symmetry; apply insert_by_key_perm|].
      constructor; [lia|exact Fl].
Qed.

Lemma sorted_items_In (m : gmap nat Rect) i r :
  In (i, r) (sorted_items m) <-> m !! i = Some r.
Proof.
  rewrite <- elem_of_map_to_list, <- list_elem_of_In.
  now rewrite sorted_items_perm.
Qed.

(** The sections come in strictly increasing page order. *)
Lemma sorted_items_increasing (m : gmap nat Rect) :
  StronglySorted (fun a b => (fst a < fst b)%nat) (sorted_items m).
Proof.
  assert (S : StronglySorted (fun a b => (fst a <= fst b)%nat) (sorted_items m)).
  { unfold sorted_items. induction (map_to_list m) as [|kv l IH]; simpl.
    - constructor.
    - now apply insert_by_key_sorted. }
  assert (D : NoDup ((sorted_items m).*1)).
  { rewrite sorted_items_perm. apply NoDup_fst_map_to_list. }
  induction S as [|kv l Sl IH Fl]; [constructor|].
  rewrite fmap_cons in D. apply NoDup_cons in D as [Nkv Dl].
  constructor; [now apply IH|].
  rewrite Forall_forall in Fl |- *. intros kv' J.
  specialize (Fl kv' J). simpl in Fl.
  destruct (Nat.eq_dec (fst kv) (fst kv')) as [E|N]; [|simpl; lia].
  exfalso. apply Nkv. rewrite E. now apply list_elem_of_fmap_2.
Qed.

(** The forward search is a query: it returns the first hit of the first
    later page that has one. *)
Lemma notes_forward_found (st : state Page) start_page pi page' target rest :
  (start_page < pi)%nat -> doc st !! pi = Some page' ->
  search_for page' "Notes:" = target :: rest ->
  (forall j pj, (start_page < j < pi)%nat -> doc st !! j = Some pj ->
                search_for pj "Notes:" = []) ->
  notes_forward start_page st = Ok (Some (pi, target)) st.
Proof.
  intros L Epi Ehits Hbefore. unfold notes_forward, bind, len_doc.
  assert (Lpi : (pi < length (doc st))%nat) by (eapply lookup_lt_Some; eauto).
  replace (length (doc st) - (start_page + 1))%nat
    with ((pi - (start_page + 1)) + S (length (doc st) - S pi))%nat by lia.
  rewrite seq_app, for_first_skip.
  - replace (start_page + 1 + (pi - (start_page + 1)))%nat with pi by lia.
    simpl. unfold bind. rewrite (page_search_ok _ _ _ _ Epi), Ehits. reflexivity.
  - intros j J. apply in_seq in J.
    destruct (page_in_range j st) as [pj Ej]; [lia|].
    unfold bind. rewrite (page_search_ok _ _ _ _ Ej).
    rewrite (Hbefore j pj) by (auto; lia). reflexivity.
Qed.

Lemma notes_forward_none (st : state Page) start_page :
  (forall j pj, (start_page < j)%nat -> doc st !! j = Some pj ->
                search_for pj "Notes:" = []) ->
  notes_forward start_page st = Ok None st.
Proof.
  intros Hnone. unfold notes_forward, bind, len_doc.
  apply for_first_none. intros j J. apply in_seq in J.
  destruct (page_in_range j st) as [pj Ej]; [lia|].
  unfold bind. rewrite (page_search_ok _ _ _ _ Ej).
  rewrite (Hnone j pj) by (auto; lia). reflexivity.
Qed.

Lemma notes_forward_query (st : state Page) start_page :
  exists found, notes_forward start_page st = Ok found st /\
    forall pi target, found = Some (pi, target) -> (pi < length (doc st))%nat.
Proof.
  unfold notes_forward, bind, len_doc.
  match goal with |- context [for_first ?l ?body st] =>
    destruct (for_first_query l body st) as (found & E & Hfound) end.
  - intros j J. apply in_seq in J.
    destruct (page_in_range j st) as [pj Ej]; [lia|].
    unfold bind. rewrite (page_search_ok _ _ _ _ Ej).
    destruct (search_for pj "Notes:"); eauto.
  - exists found. split; [exact E|].
    intros pi target ->. destruct (Hfound _ eq_refl) as (j & J & Ej).
    apply in_seq in J. unfold bind in Ej.
    destruct (page_in_range j st) as [pj Epj]; [lia|].
    rewrite (page_search_ok _ _ _ _ Epj) in Ej.
    destruct (search_for pj "Notes:"); inversion Ej; subst. lia.
Qed.

(** The candidates on the page of the heading: the first hit strictly below
    the heading is the head of the filtered list. *)
Lemma first_below ieq_rect (hits pre post : list Rect) target :
  hits = pre ++ target :: post ->
  List.Forall (fun r => y0 r <= y1 ieq_rect) pre ->
  y1 ieq_rect < y0 target ->
  exists rest,
    List.filter (fun r => Qlt_bool (y1 ieq_rect) (y0 r)) hits = target :: rest.
Proof.
  intros -> Hpre Ht. rewrite List.filter_app. rewrite filter_none.
  - simpl. apply Qlt_bool_iff in Ht. rewrite Ht. eauto.
  - intros r J. apply Qlt_bool_false_iff.
    rewrite List.Forall_forall in Hpre. now apply Hpre.
Qed.

Lemma none_below ieq_rect (hits : list Rect) :
  List.Forall (fun r => y0 r <= y1 ieq_rect) hits ->
  List.filter (fun r => Qlt_bool (y1 ieq_rect) (y0 r)) hits = [].
Proof.
  intros Hall. apply filter_none. intros r J. apply Qlt_bool_false_iff.
  rewrite List.Forall_forall in Hall. now apply Hall.
Qed.

(** One boundary never raises on a page of the document, and leaves the
    number of pages as it was. *)
Lemma insert_notes_na_at_total (st : state Page) start_page ieq_rect :
  (start_page < length (doc st))%nat ->
  exists st', insert_notes_na_at (start_page, ieq_rect) st = Ok tt st' /\
              length (doc st') = length (doc st).
Proof.
  intros L. destruct (page_in_range _ _ L) as [page Epage].
  assert (Hfound : exists found, notes_target start_page ieq_rect st = Ok found st /\
            forall pi target, found = Some (pi, target) -> (pi < length (doc st))%nat).
  { unfold notes_target, bind. rewrite (load_page_ok _ _ _ Epage).
    destruct (List.filter _ (search_for page "Notes:")) as [|r rest].
    - apply notes_forward_query.
    - exists (Some (start_page, r)). split; [reflexivity|]. now intros pi target [= <- _]. }
  destruct Hfound as (found & E & Hrange).
  unfold insert_notes_na_at, bind. rewrite E.
  destruct found as [[pi target]|].
  - destruct (page_in_range pi st) as [p Ep]; [eapply Hrange; eauto|].
    rewrite (update_page_ok _ _ _ _ Ep). eexists. split; [reflexivity|].
    simpl. apply length_insert.
  - exists st. split; reflexivity.
Qed.

Lemma insert_sections_total (l : list (nat * Rect)) (st : state Page) :
  (forall i r, In (i, r) l -> (i < length (doc st))%nat) ->
  exists st', for_each l insert_notes_na_at st = Ok tt st'.
Proof.
  revert st. induction l as [|[i r] l IH]; intros st Hvalid.
  - now exists st.
  - destruct (insert_notes_na_at_total st i r) as (st1 & E & Elen);
      [apply (Hvalid i r); now left|].
    rewrite for_each_cons. unfold bind. rewrite E. apply IH.
    intros j r' J. rewrite Elen. apply (Hvalid j r'). now right.
Qed.

(** C5: the Notes Filler handles the boundaries in strictly increasing
    page order.  For a boundary on page [start_page], in the state reached
    when its turn comes: the first "Notes:" hit of that page whose top is
    strictly below the bottom of the heading receives "NA" in red at
    [(x1 + 10, y1 + 8)]; when the page has none, the first hit of the first
    later page that has any receives it; when no later page has any, the
    document is left as it is.  When every boundary is on a page of the
    document, as those that the Section Locator recorded on a document of
    the same length are, the whole run returns without raising. *)
Theorem notes_filler_targets :
  forall (st : state Page) (sections : gmap nat Rect),
    let stamp (target : Rect) : Page -> Page :=
      insert_text (x1 target + 10, y1 target + 8) "NA" 11 "helv" red in
    let put (pi : nat) (p : Page) : state Page :=
      mkState (<[pi := p]> (doc st)) (rng st) in
    insert_ieq_notes_na sections st
      = for_each (sorted_items sections) insert_notes_na_at st /\
    StronglySorted (fun a b => (fst a < fst b)%nat) (sorted_items sections) /\
    (forall i r, In (i, r) (sorted_items sections) <-> sections !! i = Some r) /\
    ((forall i r, sections !! i = Some r -> (i < length (doc st))%nat) ->
     exists st', insert_ieq_notes_na sections st = Ok tt st') /\
    (forall st0 : state Page,
       find_ieq_sections st0 = Ok sections st0 -> length (doc st) = length (doc st0) ->
       exists st', insert_ieq_notes_na sections st = Ok tt st') /\
    forall start_page ieq_rect page,
      doc st !! start_page = Some page ->
      let hits := search_for page "Notes:" in
      (forall pre target post,
         hits = pre ++ target :: post ->
         List.Forall (fun r => y0 r <= y1 ieq_rect) pre ->
         y1 ieq_rect < y0 target ->
         insert_notes_na_at (start_page, ieq_rect) st
           = Ok tt (put start_page (stamp target page))) /\
      (List.Forall (fun r => y0 r <= y1 ieq_rect) hits ->
       (forall pi page' target rest,
          (start_page < pi)%nat -> doc st !! pi = Some page' ->
          search_for page' "Notes:" = target :: rest ->
          (forall j pj, (start_page < j < pi)%nat -> doc st !! j = Some pj ->
                        search_for pj "Notes:" = []) ->
          insert_notes_na_at (start_page, ieq_rect) st
            = Ok tt (put pi (stamp target page'))) /\
       ((forall j pj, (start_page < j)%nat -> doc st !! j = Some pj ->
                      search_for pj "Notes:" = []) ->
        insert_notes_na_at (start_page, ieq_rect) st = Ok tt st)).
Proof.
  intros st sections stamp put.
  split; [reflexivity|]. split; [apply sorted_items_increasing|].
  split; [apply sorted_items_In|].
  assert (Htotal : (forall i r, sections !! i = Some r -> (i < length (doc st))%nat) ->
            exists st', insert_ieq_notes_na sections st = Ok tt st').
  { intros Hvalid. apply insert_sections_total.
    intros i r J. apply (Hvalid i r). now apply sorted_items_In. }
  split; [exact Htotal|]. split.
  { intros st0 E0 Elen. apply Htotal. intros i r Ei. rewrite Elen.
    exact (find_ieq_sections_range st0 sections i r E0 Ei). }
  intros start_page ieq_rect page Epage hits. split.
  - intros pre target post Ehits Hpre Hbelow.
    destruct (first_below ieq_rect hits pre post target Ehits Hpre Hbelow) as [rest Ef].
    unfold insert_notes_na_at, notes_target, bind.
    rewrite (load_page_ok _ _ _ Epage). fold hits. rewrite Ef.
    unfold ret. now rewrite (update_page_ok _ _ _ _ Epage).
  - intros Hnone. pose proof (none_below ieq_rect hits Hnone) as Ef. split.
    + intros pi page' target rest L Epi Ehits Hbefore.
      unfold insert_notes_na_at, notes_target, bind.
      rewrite (load_page_ok _ _ _ Epage). fold hits. rewrite Ef.
      rewrite (notes_forward_found st start_page pi page' target rest L Epi Ehits Hbefore).
      now rewrite (update_page_ok _ _ _ _ Epi).
    + intros Hlater.
      unfold insert_notes_na_at, notes_target, bind.
      rewrite (load_page_ok _ _ _ Epage). fold hits. rewrite Ef.
      now rewrite (notes_forward_none st start_page Hlater).
Qed.

End NotesProperties.

(** *** The Notes Filler on the sample page *)

Lemma notes_filler_targets_witness :
  insert_notes_na_at (0%nat, ieq_heading) (mkState [notes_page] 0)
  = Ok tt (mkState [rec_add (Text (100, 520) "NA" 11 "helv" red) notes_page] 0).
Proof.
  refine (proj1 (proj2 (proj2 (proj2 (proj2 (proj2
            (notes_filler_targets (mkState [notes_page] 0) {[ 0%nat := ieq_heading ]})))))
            0%nat ieq_heading notes_page eq_refl)
          [notes_above] notes_below [] eq_refl _ _).
  - constructor; [|constructor]. simpl. lra.
  - simpl. lra.
Defined.

(** ** Minimum searches that start from the sentinel *)

Section Nearest.
Context {A : Type}.
Variable keep : Q -> bool.

Lemma nearest_scan (cands : list (A * Q)) :
  nearest_inv keep cands (fold_left (keep_nearer keep) cands (@None A, big)).
Proof.
  assert (G : forall l seen (acc : option A * Q), nearest_inv keep seen acc ->
            nearest_inv keep (seen ++ l) (fold_left (keep_nearer keep) l acc)).
  { induction l as [|c l IH]; intros seen acc Hacc; simpl.
    - now rewrite app_nil_r.
    - replace (seen ++ c :: l) with ((seen ++ [c]) ++ l) by (now rewrite <- app_assoc).
      apply IH. clear IH. destruct acc as [best g], c as [a gc].
      unfold keep_nearer, nearest_inv in *. simpl in *.
      destruct (keep gc) eqn:Ek; simpl;
        [destruct (Qlt_bool gc g) eqn:El; simpl|].
      + apply Qlt_bool_iff in El.
        assert (Lbig : gc < big).
        { destruct best; [destruct Hacc as (_ & _ & L & _); lra|].
          destruct Hacc as (-> & _). exact El. }
        repeat split; auto.
        * apply in_or_app. right. now left.
        * intros c Jc Kc. apply in_app_or in Jc as [Jc|[<-|[]]]; [|apply Qle_refl].
          destruct best.
          -- destruct Hacc as (_ & _ & _ & Hmin). specialize (Hmin c Jc Kc). lra.
          -- destruct Hacc as (-> & Hmin). specialize (Hmin c Jc Kc). lra.
      + apply Qlt_bool_false_iff in El. destruct best.
        * destruct Hacc as (J & K & L & Hmin). repeat split; auto.
          -- apply in_or_app. now left.
          -- intros c Jc Kc. apply in_app_or in Jc as [Jc|[<-|[]]]; auto.
        * destruct Hacc as (-> & Hmin). split; [reflexivity|].
          intros c Jc Kc. apply in_app_or in Jc as [Jc|[<-|[]]]; auto.
      + destruct best.
        * destruct Hacc as (J & K & L & Hmin). repeat split; auto.
          -- apply in_or_app. now left.
          -- intros c Jc Kc. apply in_app_or in Jc as [Jc|[<-|[]]]; auto.
             simpl in Kc. congruence.
        * destruct Hacc as (-> & Hmin). split; [reflexivity|].
          intros c Jc Kc. apply in_app_or in Jc as [Jc|[<-|[]]]; auto.
          simpl in Kc. congruence. }
  apply (G cands [] (None, big)). simpl. split; [reflexivity|]. intros c [].
Qed.

(** A double loop is a single loop over the pairs, in the same order. *)
Lemma fold_left_product {S D} (cand : S -> D -> A * Q) (ss : list S) (ds : list D)
    (acc : option A * Q) :
  fold_left (fun acc s => fold_left (fun acc d => keep_nearer keep acc (cand s d)) ds acc)
    ss acc
  = fold_left (keep_nearer keep) (flat_map (fun s => map (cand s) ds) ss) acc.
Proof.
  revert acc. induction ss as [|s ss IH]; intros acc; simpl; [reflexivity|].
  rewrite fold_left_app, <- IH. f_equal.
  clear. revert acc. induction ds as [|d ds IH]; intros acc; simpl; auto.
Qed.

End Nearest.

(** ** Properties of the signature page search *)

Section SignaturePage.
Context {Page : Type} `{Fitz Page}.

Local Abbreviation phrase :=
  ("Signature & Stamp of Verifying Licensed Professional"%string).

Lemma scan_page_pairs_flat i (p : Page) acc :
  scan_page_pairs i (search_for p "Signature") (search_for p "Date") acc
  = fold_left (keep_nearer (fun _ => true)) (page_pairs i p) acc.
Proof.
  unfold scan_page_pairs, page_pairs.
  rewrite <- (fold_left_product (fun _ => true) (fun s d => (i, v_gap s d))).
  revert acc. induction (search_for p "Signature") as [|s ss IH]; intros acc; simpl;
    [reflexivity|].
  rewrite IH. f_equal.
  clear. revert acc. induction (search_for p "Date") as [|d ds IH]; intros acc; simpl;
    [reflexivity|].
  rewrite IH. f_equal. destruct acc as [best g]. reflexivity.
Qed.

Lemma doc_pairs_In k pages c :
  In c (doc_pairs k pages) <->
  exists j p s d, pages !! j = Some p /\ In s (search_for p "Signature") /\
                  In d (search_for p "Date") /\ c = ((k + j)%nat, v_gap s d).
Proof.
  revert k. induction pages as [|p pages IH]; intros k; simpl.
  - split; [intros []|]. intros (j & p & s & d & E & _). now rewrite lookup_nil in E.
  - rewrite in_app_iff, IH. unfold page_pairs. rewrite in_flat_map. split.
    + intros [(s & Js & Jd)|(j & p' & s & d & E & Js & Jd & ->)].
      * apply in_map_iff in Jd as (d & <- & Jd).
        exists 0%nat, p, s, d. rewrite Nat.add_0_r. auto.
      * exists (S j), p', s, d. repeat split; auto. f_equal. lia.
    + intros ([|j] & p' & s & d & E & Js & Jd & ->).
      * simpl in E. inversion E; subst p'. left. exists s. split; [exact Js|].
        apply in_map_iff. exists d. rewrite Nat.add_0_r. auto.
      * right. exists j, p', s, d. repeat split; auto. f_equal. lia.
Qed.

(** The search for the exact phrase, as a query. *)
Lemma exact_phase_found (st : state Page) i p :
  doc st !! i = Some p -> search_for p phrase <> [] ->
  (forall j pj, (j < i)%nat -> doc st !! j = Some pj -> search_for pj phrase = []) ->
  for_first (seq 0 (length (doc st)))
    (fun i => rects <- page_search i phrase ;;
              match rects with
              | _ :: _ => ret (Some i)
              | [] => ret None
              end) st
  = Ok (Some i) st.
Proof.
  intros Ei Hhit Hbefore.
  assert (Li : (i < length (doc st))%nat) by (eapply lookup_lt_Some; eauto).
  replace (length (doc st)) with (i + S (length (doc st) - S i))%nat by lia.
  rewrite seq_app, for_first_skip.
  - simpl. unfold bind. rewrite (page_search_ok _ _ _ _ Ei).
    destruct (search_for p phrase); [congruence|reflexivity].
  - intros j J. apply in_seq in J.
    destruct (page_in_range j st) as [pj Ej]; [lia|].
    unfold bind. rewrite (page_search_ok _ _ _ _ Ej).
    rewrite (Hbefore j pj) by (auto; lia). reflexivity.
Qed.

Lemma exact_phase_none (st : state Page) :
  (forall j pj, doc st !! j = Some pj -> search_for pj phrase = []) ->
  for_first (seq 0 (length (doc st)))
    (fun i => rects <- page_search i phrase ;;
              match rects with
              | _ :: _ => ret (Some i)
              | [] => ret None
              end) st
  = Ok None st.
Proof.
  intros Hnone. apply for_first_none. intros j J. apply in_seq in J.
  destruct (page_in_range j st) as [pj Ej]; [lia|].
  unfold bind. rewrite (page_search_ok _ _ _ _ Ej).
  rewrite (Hnone j pj) by auto. reflexivity.
Qed.

(** The fallback loop, as a query: a single minimum search over the
    candidates of all pages. *)
Lemma fallback_phase (st : state Page) pages k acc :
  (forall j p, pages !! j = Some p -> doc st !! (k + j)%nat = Some p) ->
  for_fold (seq k (length pages))
    (fun acc i =>
       p <- load_page i ;;
       let sigs := search_for p "Signature" in
       let dates := search_for p "Date" in
       ret (scan_page_pairs i sigs dates acc)) acc st
  = Ok (fold_left (keep_nearer (fun _ => true)) (doc_pairs k pages) acc) st.
Proof.
  revert k acc. induction pages as [|p pages IH]; intros k acc Hpages; simpl.
  - reflexivity.
  - unfold bind at 1. unfold bind at 1.
    rewrite (load_page_ok k p st).
    + unfold ret at 1. rewrite fold_left_app, <- scan_page_pairs_flat.
      apply IH. intros j p' E. replace (S k + j)%nat with (k + S j)%nat by lia.
      now apply Hpages.
    + specialize (Hpages 0%nat p eq_refl). now rewrite Nat.add_0_r in Hpages.
Qed.

(** [max(0, len(doc) - 2)] *)
Lemma last_resort_index (n : nat) :
  Z.to_nat (Z.max 0 (Z.of_nat n - 2)) = (n - 2)%nat.
Proof. lia. Qed.

Lemma doc_pairs_holds (st : state Page) c :
  In c (doc_pairs 0 (doc st)) <->
  exists s d, holds_pair st (fst c) s d /\ snd c = v_gap s d.
Proof.
  rewrite doc_pairs_In. split.
  - intros (j & p & s & d & E & Js & Jd & ->). exists s, d. simpl.
    split; [|reflexivity]. exists p. auto.
  - intros (s & d & (p & E & Js & Jd) & Eg). exists (fst c), p, s, d.
    repeat split; auto. destruct c; simpl in *. now subst.
Qed.

(** Without the exact phrase the result is the page of the minimum search,
    or the last resort when the search kept nothing. *)
Lemma find_signature_page_fallback (st : state Page) :
  (forall j pj, doc st !! j = Some pj -> search_for pj phrase = []) ->
  find_signature_page st
  = Ok (match fst (fold_left (keep_nearer (fun _ => true))
                     (doc_pairs 0 (doc st)) (None, big)) with
        | Some best => best
        | None => (length (doc st) - 2)%nat
        end) st.
Proof.
  intros Hnone. unfold find_signature_page.
  rewrite (bind_ok len_doc _ st (length (doc st)) st eq_refl).
  rewrite (bind_ok _ _ st None st (exact_phase_none st Hnone)).
  rewrite (bind_ok _ _ st _ st
             (fallback_phase st (doc st) 0 (None, big) (fun j p E => E))).
  destruct (fst _); unfold ret; [reflexivity|]. now rewrite last_resort_index.
Qed.

(** The order of the page search.  (a) The first page with the exact phrase
    is selected.  Without the phrase on any page, (b) if some page holds a
    "Signature" and a "Date" box whose distance is below the sentinel, the
    selected page holds a pair whose vertical-centre distance is least among
    all pairs of all pages; (c) if no pair is below the sentinel, the
    selected index is the second-to-last page, or 0 for fewer than two
    pages.  A three-page document whose only page with the phrase is page 2
    selects page 2, whatever pages 0 and 1 hold. *)
Lemma signature_page_priority :
  forall (st : state Page),
    (forall i p, doc st !! i = Some p -> search_for p phrase <> [] ->
       (forall j pj, (j < i)%nat -> doc st !! j = Some pj -> search_for pj phrase = []) ->
       find_signature_page st = Ok i st) /\
    ((forall j pj, doc st !! j = Some pj -> search_for pj phrase = []) ->
     (forall i s d, holds_pair st i s d -> v_gap s d < big ->
        exists i' s' d',
          find_signature_page st = Ok i' st /\ holds_pair st i' s' d' /\
          forall j sj dj, holds_pair st j sj dj -> v_gap s' d' <= v_gap sj dj) /\
     ((forall j sj dj, holds_pair st j sj dj -> big <= v_gap sj dj) ->
      find_signature_page st
      = Ok (if (2 <=? length (doc st))%nat then (length (doc st) - 2)%nat else 0%nat) st)) /\
    (forall p0 p1 p2, doc st = [p0; p1; p2] ->
       search_for p0 phrase = [] -> search_for p1 phrase = [] ->
       search_for p2 phrase <> [] ->
       find_signature_page st = Ok 2%nat st).
Proof.
  intros st.
  assert (Ha : forall i p, doc st !! i = Some p -> search_for p phrase <> [] ->
             (forall j pj, (j < i)%nat -> doc st !! j = Some pj -> search_for pj phrase = []) ->
             find_signature_page st = Ok i st).
  { intros i p Ei Hhit Hbefore. unfold find_signature_page.
    rewrite (bind_ok len_doc _ st (length (doc st)) st eq_refl).
    now rewrite (bind_ok _ _ st (Some i) st (exact_phase_found st i p Ei Hhit Hbefore)). }
  split; [exact Ha|]. split.
  - intros Hnone. rewrite (find_signature_page_fallback st Hnone).
    pose proof (nearest_scan (fun _ => true) (doc_pairs 0 (doc st))) as Hinv.
    unfold nearest_inv in Hinv.
    destruct (fold_left _ _ _) as [[best|] g]; cbn [fst snd] in Hinv |- *.
    + split.
      * intros _ _ _ _ _. destruct Hinv as (J & _ & _ & Hmin).
        apply doc_pairs_holds in J as (s' & d' & Hp & Eg). simpl in Hp, Eg.
        exists best, s', d'. split; [reflexivity|]. split; [exact Hp|].
        intros j sj dj Hj. rewrite <- Eg.
        apply (Hmin (j, v_gap sj dj)); [|reflexivity].
        apply doc_pairs_holds. exists sj, dj. auto.
      * intros Hfar. exfalso. destruct Hinv as (J & _ & L & _).
        apply doc_pairs_holds in J as (s' & d' & Hp & Eg). simpl in Hp, Eg.
        specialize (Hfar _ _ _ Hp). rewrite <- Eg in Hfar. lra.
    + split.
      * intros i s d Hp L. exfalso. destruct Hinv as (_ & Hmin).
        assert (B : big <= v_gap s d).
        { apply (Hmin (i, v_gap s d)); [|reflexivity].
          apply doc_pairs_holds. exists s, d. auto. }
        lra.
      * intros _. destruct (2 <=? length (doc st))%nat eqn:E; [reflexivity|].
        apply Nat.leb_gt in E. f_equal. lia.
  - intros p0 p1 p2 Edoc E0 E1 E2. apply (Ha 2%nat p2).
    + now rewrite Edoc.
    + exact E2.
    + intros j pj L Ej. rewrite Edoc in Ej.
      destruct j as [|[|j]]; simpl in Ej; [| |lia]; inversion Ej; subst; assumption.
Qed.

End SignaturePage.

(** ** Properties of the Signature Filler *)

Section SignatureFiller.
Context {Page : Type} `{Fitz Page}.

Lemma fill_paragraph_result (st : state Page) i page signer_name :
  doc st !! i = Some page ->
  fill_paragraph i page signer_name st
  = Ok tt (mkState (<[i := paragraph_filled page signer_name]> (doc st)) (rng st)).
Proof.
  intros E. unfold fill_paragraph, paragraph_filled. cbv zeta.
  destruct (search_for page "(Name)") as [|r names];
    destruct (choose_para_date _ (search_for page "(Date)")) as [chosen|].
  - unfold bind, ret. now rewrite (update_page_ok _ _ _ _ E).
  - unfold bind, ret. now rewrite (update_page_same _ _ _ E).
  - now rewrite (update_page_twice _ _ _ _ _ E).
  - unfold bind, ret. now rewrite (update_page_ok _ _ _ _ E).
Qed.

Lemma fill_labels_result (st : state Page) i page signer_name bottom_date tol :
  doc st !! i = Some page ->
  fill_labels i signer_name bottom_date tol st
  = Ok tt (mkState (<[i := labels_filled page signer_name bottom_date tol]> (doc st)) (rng st)).
Proof.
  intros E. unfold fill_labels, labels_filled.
  rewrite (bind_ok _ _ st _ st (page_search_ok _ _ "Signature" _ E)).
  rewrite (bind_ok _ _ st _ st (page_search_ok _ _ "Date" _ E)).
  destruct (pair_labels tol _ _) as [[s d]|].
  - now rewrite (update_page_twice _ _ _ _ _ E).
  - unfold ret. now rewrite (update_page_same _ _ _ E).
Qed.

(** The whole filler on a document whose signature page exists. *)
Lemma fill_signature_result (st : state Page) i page signer_name bottom_date tol :
  find_signature_page st = Ok i st -> doc st !! i = Some page ->
  fill_signature_section_red signer_name bottom_date tol st
  = Ok tt (mkState
             (<[i := labels_filled (paragraph_filled page signer_name)
                       signer_name bottom_date tol]> (doc st))
             (rng st)).
Proof.
  intros Efind E. unfold fill_signature_section_red.
  rewrite (bind_ok _ _ st _ st Efind).
  rewrite (bind_ok _ _ st _ st (load_page_ok _ _ _ E)).
  rewrite (bind_ok _ _ st _ _ (fill_paragraph_result st i page signer_name E)).
  assert (L : (i < length (doc st))%nat) by (eapply lookup_lt_Some; eauto).
  rewrite (fill_labels_result _ i (paragraph_filled page signer_name)).
  - simpl. now rewrite list_insert_insert_eq.
  - simpl. now apply list_lookup_insert_eq.
Qed.

(** The page search is a query; on a document with pages its result is
    one of them. *)
Lemma find_signature_page_query (st : state Page) :
  exists i, find_signature_page st = Ok i st /\
            (doc st <> [] -> (i < length (doc st))%nat).
Proof.
  unfold find_signature_page.
  rewrite (bind_ok len_doc _ st (length (doc st)) st eq_refl).
  match goal with |- context [for_first ?l ?body] =>
    destruct (for_first_query l body st) as (exact & E & Hexact) end.
  { intros j J. apply in_seq in J.
    destruct (page_in_range j st) as [pj Ej]; [lia|].
    unfold bind. rewrite (page_search_ok _ _ _ _ Ej).
    destruct (search_for pj _); eauto. }
  rewrite (bind_ok _ _ st _ st E). destruct exact as [i|].
  - exists i. split; [reflexivity|]. intros _.
    destruct (Hexact i eq_refl) as (j & J & Ej). apply in_seq in J.
    unfold bind in Ej. destruct (page_in_range j st) as [pj Epj]; [lia|].
    rewrite (page_search_ok _ _ _ _ Epj) in Ej.
    destruct (search_for pj _); inversion Ej; subst. lia.
  - rewrite (bind_ok _ _ st _ st
               (fallback_phase st (doc st) 0 (None, big) (fun j p E => E))).
    pose proof (nearest_scan (fun _ => true) (doc_pairs 0 (doc st))) as Hinv.
    unfold nearest_inv in Hinv.
    destruct (fold_left _ _ _) as [[best|] g]; cbn [fst snd] in Hinv |- *.
    + exists best. split; [reflexivity|]. intros _.
      destruct Hinv as (J & _). apply doc_pairs_In in J as (j & p & s & d & Ej & _ & _ & Ec).
      inversion Ec; subst. simpl. eapply lookup_lt_Some; eauto.
    + eexists. split; [reflexivity|]. intros Hne. rewrite last_resort_index.
      destruct (doc st); [congruence|simpl; lia].
Qed.

(** On a document with at least one page the filler returns. *)
Lemma fill_signature_total (st : state Page) signer_name bottom_date tol :
  doc st <> [] ->
  exists st', fill_signature_section_red signer_name bottom_date tol st = Ok tt st'.
Proof.
  intros Hne. destruct (find_signature_page_query st) as (i & Efind & Hrange).
  destruct (page_in_range i st (Hrange Hne)) as [page E].
  eexists. apply (fill_signature_result st i page); eauto.
Qed.

(** C7: on the document without pages the last resort [max(0, len(doc) - 2)]
    is 0, and [doc[0]] raises. *)
Theorem fill_signature_raises_without_pages :
  forall signer_name bottom_date tol draws,
    find_signature_page (mkState (@nil Page) draws) = Ok 0%nat (mkState [] draws) /\
    fill_signature_section_red signer_name bottom_date tol (mkState (@nil Page) draws)
    = Raise IndexError.
Proof.
  intros. split; reflexivity.
Qed.

End SignatureFiller.

(** ** Pairing the labels *)

Section LabelPairing.

Lemma min_by_least key first rest :
  In (min_by key first rest) (first :: rest) /\
  forall r, In r (first :: rest) -> key (min_by key first rest) <= key r.
Proof.
  unfold min_by.
  assert (G : forall l seen best,
            In best seen /\ (forall r, In r seen -> key best <= key r) ->
            let m := fold_left (fun best r => if Qlt_bool (key r) (key best) then r else best)
                       l best in
            In m (seen ++ l) /\ forall r, In r (seen ++ l) -> key m <= key r).
  { induction l as [|x l IH]; intros seen best [J Hmin]; simpl.
    - now rewrite app_nil_r.
    - replace (seen ++ x :: l) with ((seen ++ [x]) ++ l) by (now rewrite <- app_assoc).
      apply IH. destruct (Qlt_bool (key x) (key best)) eqn:E.
      + apply Qlt_bool_iff in E. split; [apply in_or_app; right; now left|].
        intros r Jr. apply in_app_or in Jr as [Jr|[<-|[]]]; [|apply Qle_refl].
        specialize (Hmin r Jr). lra.
      + apply Qlt_bool_false_iff in E. split; [apply in_or_app; now left|].
        intros r Jr. apply in_app_or in Jr as [Jr|[<-|[]]]; auto. }
  apply (G rest [first] first). split; [now left|].
  intros r [<-|[]]. apply Qle_refl.
Qed.

Lemma label_pairs_In sig_rects date_rects c :
  In c (label_pairs sig_rects date_rects) <->
  In (fst (fst c)) sig_rects /\ In (snd (fst c)) date_rects /\
  snd c = v_gap (fst (fst c)) (snd (fst c)).
Proof.
  unfold label_pairs. rewrite in_flat_map. split.
  - intros (s & Js & Jd). apply in_map_iff in Jd as (d & <- & Jd). simpl. auto.
  - intros (Js & Jd & E). exists (fst (fst c)). split; [exact Js|].
    apply in_map_iff. exists (snd (fst c)). split; [|exact Jd].
    destruct c as [[s d] g]. simpl in *. now subst.
Qed.

Lemma scan_label_pairs_flat tol sig_rects date_rects :
  scan_label_pairs tol sig_rects date_rects
  = fold_left (keep_nearer (fun gap => Qle_bool gap tol))
      (label_pairs sig_rects date_rects) (None, big).
Proof.
  unfold scan_label_pairs, label_pairs.
  rewrite <- (fold_left_product (fun gap => Qle_bool gap tol)
                (fun s d => ((s, d), v_gap s d))).
  generalize (@None (Rect * Rect), big).
  induction sig_rects as [|s ss IH]; intros acc; simpl; [reflexivity|].
  rewrite IH. f_equal.
  clear. revert acc. induction date_rects as [|d ds IH]; intros acc; simpl;
    [reflexivity|].
  rewrite IH. f_equal. destruct acc as [best g]. reflexivity.
Qed.

(** Within a tolerance below the sentinel: the pair of least distance
    among those within tolerance, when one exists. *)
Lemma pair_labels_within tol sig_rects date_rects s d :
  tol < big ->
  In s sig_rects -> In d date_rects -> v_gap s d <= tol ->
  exists s' d',
    pair_labels tol sig_rects date_rects = Some (s', d') /\
    In s' sig_rects /\ In d' date_rects /\ v_gap s' d' <= tol /\
    forall s'' d'', In s'' sig_rects -> In d'' date_rects ->
                    v_gap s'' d'' <= tol -> v_gap s' d' <= v_gap s'' d''.
Proof.
  intros Ltol Js Jd Hgap. unfold pair_labels. rewrite scan_label_pairs_flat.
  pose proof (nearest_scan (fun gap => Qle_bool gap tol)
                (label_pairs sig_rects date_rects)) as Hinv.
  unfold nearest_inv in Hinv.
  destruct (fold_left _ _ _) as [[[s' d']|] g]; cbn [fst snd] in Hinv |- *.
  - destruct Hinv as (J & K & _ & Hmin).
    apply label_pairs_In in J as (Js' & Jd' & Eg). simpl in Js', Jd', Eg.
    apply Qle_bool_iff in K. exists s', d'. rewrite <- Eg.
    repeat split; auto.
    intros s'' d'' Js'' Jd'' Hg''.
    apply (Hmin ((s'', d''), v_gap s'' d'')).
    + apply label_pairs_In. simpl. auto.
    + now apply Qle_bool_iff.
  - exfalso. destruct Hinv as (_ & Hmin).
    assert (B : big <= v_gap s d).
    { apply (Hmin ((s, d), v_gap s d)).
      - apply label_pairs_In. simpl. auto.
      - now apply Qle_bool_iff. }
    lra.
Qed.

(** No pair within tolerance: the topmost "Signature" and the "Date"
    nearest to it. *)
Lemma pair_labels_fallback tol sig_rects date_rects :
  (forall s d, In s sig_rects -> In d date_rects -> tol < v_gap s d) ->
  sig_rects <> [] -> date_rects <> [] ->
  exists s d,
    pair_labels tol sig_rects date_rects = Some (s, d) /\
    In s sig_rects /\ (forall s', In s' sig_rects -> y0 s <= y0 s') /\
    In d date_rects /\
    (forall d', In d' date_rects ->
                Qabs (v_center d - v_center s) <= Qabs (v_center d' - v_center s)).
Proof.
  intros Hfar Hs Hd. unfold pair_labels. rewrite scan_label_pairs_flat.
  pose proof (nearest_scan (fun gap => Qle_bool gap tol)
                (label_pairs sig_rects date_rects)) as Hinv.
  unfold nearest_inv in Hinv.
  destruct (fold_left _ _ _) as [[[s' d']|] g]; cbn [fst snd] in Hinv |- *.
  - exfalso. destruct Hinv as (J & K & _).
    apply label_pairs_In in J as (Js' & Jd' & Eg). simpl in Js', Jd', Eg.
    apply Qle_bool_iff in K. specialize (Hfar s' d' Js' Jd').
    rewrite Eg in K. lra.
  - destruct sig_rects as [|s0 sigs]; [congruence|].
    destruct date_rects as [|d0 dates]; [congruence|].
    destruct (min_by_least y0 s0 sigs) as (Js & Hs_min).
    set (s := min_by y0 s0 sigs) in *.
    destruct (min_by_least (fun r => Qabs (v_center r - v_center s)) d0 dates)
      as (Jd & Hd_min).
    eexists _, _. split; [reflexivity|]. repeat split; auto.
Qed.

(** Without a label of one of the two kinds there is no pair. *)
Lemma pair_labels_none tol sig_rects date_rects :
  sig_rects = [] \/ date_rects = [] -> pair_labels tol sig_rects date_rects = None.
Proof.
  intros Hempty. unfold pair_labels. rewrite scan_label_pairs_flat.
  assert (E : label_pairs sig_rects date_rects = []).
  { destruct Hempty as [-> | ->]; [reflexivity|].
    unfold label_pairs. induction sig_rects as [|s ss IH]; simpl; auto. }
  rewrite E. simpl. destruct Hempty as [-> | ->]; [reflexivity|].
  now destruct sig_rects.
Qed.

End LabelPairing.

(** ** The two blocks of the Signature Filler *)

Section SignatureBlocks.
Context {Page : Type} `{Fitz Page}.

(** With no token and no label pair on the signature page, the filler
    leaves the document as it is. *)
Lemma fill_signature_nothing_found (st : state Page) i page signer_name bottom_date tol :
  find_signature_page st = Ok i st -> doc st !! i = Some page ->
  search_for page "(Name)" = [] -> search_for page "(Date)" = [] ->
  search_for page "Signature" = [] \/ search_for page "Date" = [] ->
  fill_signature_section_red signer_name bottom_date tol st = Ok tt st.
Proof.
  intros Efind E En Ed Hlabels.
  rewrite (fill_signature_result st i page _ _ _ Efind E).
  assert (Epara : paragraph_filled page signer_name = page).
  { unfold paragraph_filled. now rewrite En, Ed. }
  rewrite Epara. unfold labels_filled. rewrite (pair_labels_none _ _ _ Hlabels).
  now rewrite (update_page_same _ _ _ E).
Qed.

(** C4: with the tolerance of 60, (1) when some "Signature"/"Date" pair is
    within tolerance, the pair chosen is within tolerance and has the least
    vertical-centre distance among such pairs; (2) when both kinds of label
    exist and no pair is within tolerance, the topmost "Signature" is
    paired with the "Date" vertically nearest to it; (3) the chosen pair
    receives the signer name at [(s.x1 + 12, s.y1 - 2)] and the bottom date
    at [(d.x1 + 12, d.y1 - 2)], both in red; (4) so, when the signature
    page, as the paragraph block leaves it, has one "Signature" and one
    "Date" label 80 units apart, the filler makes both insertions. *)
Theorem labels_paired_and_filled :
  forall (signer_name bottom_date : string),
    let filled (s d : Rect) (page : Page) : Page :=
      insert_text (x1 d + 12, y1 d - 2) bottom_date 12 "helv" red
        (insert_text (x1 s + 12, y1 s - 2) signer_name 16 "helv" red page) in
    (forall sig_rects date_rects s d,
       In s sig_rects -> In d date_rects -> v_gap s d <= 60 ->
       exists s' d',
         pair_labels 60 sig_rects date_rects = Some (s', d') /\
         In s' sig_rects /\ In d' date_rects /\ v_gap s' d' <= 60 /\
         forall s'' d'', In s'' sig_rects -> In d'' date_rects ->
                         v_gap s'' d'' <= 60 -> v_gap s' d' <= v_gap s'' d'') /\
    (forall sig_rects date_rects,
       (forall s d, In s sig_rects -> In d date_rects -> 60 < v_gap s d) ->
       sig_rects <> [] -> date_rects <> [] ->
       exists s d,
         pair_labels 60 sig_rects date_rects = Some (s, d) /\
         In s sig_rects /\ (forall s', In s' sig_rects -> y0 s <= y0 s') /\
         In d date_rects /\
         (forall d', In d' date_rects ->
                     Qabs (v_center d - v_center s) <= Qabs (v_center d' - v_center s))) /\
    (forall (st : state Page) i page s d,
       doc st !! i = Some page ->
       pair_labels 60 (search_for page "Signature") (search_for page "Date") = Some (s, d) ->
       fill_labels i signer_name bottom_date 60 st
       = Ok tt (mkState (<[i := filled s d page]> (doc st)) (rng st))) /\
    (forall (st : state Page) i page s d,
       find_signature_page st = Ok i st -> doc st !! i = Some page ->
       search_for (paragraph_filled page signer_name) "Signature" = [s] ->
       search_for (paragraph_filled page signer_name) "Date" = [d] ->
       v_gap s d == 80 ->
       fill_signature_section_red signer_name bottom_date 60 st
       = Ok tt (mkState
                  (<[i := filled s d (paragraph_filled page signer_name)]> (doc st))
                  (rng st))).
Proof.
  intros signer_name bottom_date filled.
  split; [|split; [|split]].
  - intros sig_rects date_rects s d Js Jd Hgap.
    now apply (pair_labels_within 60 _ _ s d).
  - intros sig_rects date_rects. apply pair_labels_fallback.
  - intros st i page s d E Ep. rewrite (fill_labels_result st i page _ _ _ E).
    unfold labels_filled. now rewrite Ep.
  - intros st i page s d Efind E Es Ed Hgap.
    rewrite (fill_signature_result st i page _ _ _ Efind E).
    unfold labels_filled. rewrite Es, Ed.
    destruct (pair_labels_fallback 60 [s] [d]) as (s' & d' & Ep & Js & _ & Jd & _).
    + intros s1 d1 [<-|[]] [<-|[]]. lra.
    + discriminate.
    + discriminate.
    + destruct Js as [->|[]]. destruct Jd as [->|[]]. now rewrite Ep.
Qed.

(** C6 (amended): when "(Name)" was found, the "(Date)" occurrence chosen
    is the first one, in search order, whose top is at or below the point 5
    units above the top of the first "(Name)"; when none is, or no "(Name)"
    was found, it is the first occurrence.  "NA" goes, in red, to
    [(chosen.x0 - 6 - width("NA"), chosen.y1 - 2)], on the page as the name
    insertion left it. *)
Theorem paragraph_date_choice :
  forall (st : state Page) i page signer_name,
    doc st !! i = Some page ->
    let name_marks := search_for page "(Name)" in
    let date_marks := search_for page "(Date)" in
    let named : Page :=
      match name_marks with
      | r :: _ =>
          insert_text (x0 r - 6 - text_width signer_name 11, y1 r - 2)
            signer_name 11 "helv" red page
      | [] => page
      end in
    (forall name names pre d post,
       name_marks = name :: names -> date_marks = pre ++ d :: post ->
       List.Forall (fun d' => y0 d' < y0 name - 5) pre -> y0 name - 5 <= y0 d ->
       choose_para_date name_marks date_marks = Some d) /\
    (forall name names first others,
       name_marks = name :: names -> date_marks = first :: others ->
       List.Forall (fun d' => y0 d' < y0 name - 5) date_marks ->
       choose_para_date name_marks date_marks = Some first) /\
    (forall first others,
       name_marks = [] -> date_marks = first :: others ->
       choose_para_date name_marks date_marks = Some first) /\
    (forall chosen,
       choose_para_date name_marks date_marks = Some chosen ->
       fill_paragraph i page signer_name st
       = Ok tt (mkState
                  (<[i := insert_text (x0 chosen - 6 - text_width "NA" 11, y1 chosen - 2)
                            "NA" 11 "helv" red named]> (doc st))
                  (rng st))).
Proof.
  intros st i page signer_name E name_marks date_marks named.
  split; [|split; [|split]].
  - intros name names pre d post En Ed Hpre Hd.
    unfold choose_para_date. rewrite En, Ed.
    assert (Ef : List.find (fun d0 => Qle_bool (y0 name - 5) (y0 d0)) (pre ++ d :: post)
                 = Some d).
    { clear Ed. induction pre as [|a pre IH]; simpl.
      - apply Qle_bool_iff in Hd. now rewrite Hd.
      - inversion Hpre as [|? ? Ha Hrest]; subst.
        apply Qle_bool_false_iff in Ha. rewrite Ha. now apply IH. }
    rewrite Ef. now destruct (pre ++ d :: post).
  - intros name names first others En Ed Hall.
    unfold choose_para_date. rewrite En, Ed. rewrite Ed in Hall.
    assert (Ef : List.find (fun d0 => Qle_bool (y0 name - 5) (y0 d0)) (first :: others)
                 = None).
    { clear Ed. induction Hall as [|a l Ha _ IH]; simpl; [reflexivity|].
      apply Qle_bool_false_iff in Ha. now rewrite Ha. }
    now rewrite Ef.
  - intros first others En Ed. unfold choose_para_date. now rewrite En, Ed.
  - intros chosen Ec. rewrite (fill_paragraph_result st i page signer_name E).
    unfold paragraph_filled. fold name_marks date_marks. now rewrite Ec.
Qed.

End SignatureBlocks.

(** *** The Signature Filler on the sample pages *)

Lemma signature_page_priority_witness :
  find_signature_page stamp_doc = Ok 2%nat stamp_doc.
Proof.
  refine (proj2 (proj2 (signature_page_priority stamp_doc))
            words_page words_page stamp_page eq_refl eq_refl eq_refl _).
  discriminate.
Defined.

(** C3: the fallback misses a pair that is 1e9 or more apart.  On
    [far_doc] no page has the exact phrase, and page 0 holds a "Signature"
    box and a "Date" box, the only pair of the document and so the pair of
    least distance; the minimum search starts from the sentinel 1e9 instead
    of from no bound, rejects the pair and leaves [best] unset, and the
    search returns the last resort, page 1, which holds no label at all. *)
Theorem signature_page_misses_far_pair :
  find_signature_page far_doc = Ok 1%nat far_doc /\
  Forall (fun p : RecPage =>
            search_for p "Signature & Stamp of Verifying Licensed Professional" = [])
         (doc far_doc) /\
  holds_pair far_doc 0 sig_far date_far /\
  (forall i s d, holds_pair far_doc i s d -> i = 0%nat /\ s = sig_far /\ d = date_far) /\
  big <= v_gap sig_far date_far /\
  search_for blank_page "Signature" = [] /\ search_for blank_page "Date" = [].
Proof.
  split; [reflexivity|]. split; [repeat constructor|]. split; [|split].
  - exists far_page. split; [reflexivity|]. split; now left.
  - intros [|[|[|i]]] s d (p & E & Js & Jd); simpl in E; inversion E; subst p;
      simpl in Js, Jd; try tauto.
    destruct Js as [<-|[]], Jd as [<-|[]]. auto.
  - split; [|split; reflexivity]. vm_compute. discriminate.
Qed.

Lemma labels_paired_and_filled_witness :
  v_gap sig_label date_label == 80 /\
  fill_signature_section_red "Ann" "2026-01-31" 60 (mkState [label_page] 0)
  = Ok tt (mkState
             [rec_add (Text (90 + 12, 692 - 2) "2026-01-31" 12 "helv" red)
                (rec_add (Text (120 + 12, 612 - 2) "Ann" 16 "helv" red) label_page)]
             0).
Proof.
  assert (E80 : v_gap sig_label date_label == 80) by reflexivity.
  split; [exact E80|].
  exact (proj2 (proj2 (proj2 (labels_paired_and_filled "Ann" "2026-01-31")))
           (mkState [label_page] 0) 0%nat label_page sig_label date_label
           eq_refl eq_refl eq_refl eq_refl E80).
Defined.

(** C6, as stated, fails on [para_page]: the "(Date)" that receives "NA" is
    [date_up], whose top (96) is above the top of "(Name)" (100), although
    [date_level], later in search order, is level with it.  And when the
    only "(Date)" is far above the name, that one is chosen. *)
Lemma paragraph_date_above_name_counterexample :
  choose_para_date (search_for para_page "(Name)") (search_for para_page "(Date)")
  = Some date_up /\
  y0 date_up < y0 name_mark /\
  y0 name_mark <= y0 date_level /\
  fill_paragraph 0 para_page "Ann" (mkState [para_page] 0)
  = Ok tt (mkState
             [rec_add (Text (x0 date_up - 6 - text_width "NA" 11, y1 date_up - 2)
                         "NA" 11 "helv" red)
                (rec_add (Text (x0 name_mark - 6 - text_width "Ann" 11, y1 name_mark - 2)
                            "Ann" 11 "helv" red) para_page)]
             0) /\
  choose_para_date [name_mark] [date_high] = Some date_high /\
  y0 date_high < y0 name_mark - 5.
Proof.
  repeat split; try reflexivity. discriminate.
Qed.

Lemma paragraph_date_choice_witness :
  choose_para_date (search_for para_page "(Name)") (search_for para_page "(Date)")
  = Some date_up.
Proof.
  refine (proj1 (paragraph_date_choice (mkState [para_page] 0) 0 para_page "Ann" eq_refl)
            name_mark [] [] date_up [date_level] eq_refl eq_refl _ _).
  - constructor.
  - simpl. lra.
Defined.

(** ** The queries *)

Section Queries.
Context {Page : Type} `{Fitz Page}.

(** C10: the two queries return without raising and leave the state, the
    pages of the document included, exactly as it was; so running them any
    number of times, or before any other operation, changes nothing. *)
Theorem queries_leave_document_unchanged :
  forall (st : state Page),
    (exists sections, find_ieq_sections st = Ok sections st) /\
    (exists i, find_signature_page st = Ok i st) /\
    (forall n, for_each (seq 0 n)
                 (fun _ => find_ieq_sections ;; find_signature_page ;; ret tt) st
               = Ok tt st) /\
    (forall (B : Type) (k : M Page B),
       (find_ieq_sections ;; k) st = k st /\ (find_signature_page ;; k) st = k st).
Proof.
  intros st.
  destruct (find_ieq_sections_query st) as (sections & Es & _).
  destruct (find_signature_page_query st) as (i & Ei & _).
  split; [eauto|]. split; [eauto|]. split.
  - intros n. generalize 0%nat. induction n as [|n IH]; intros k; simpl; [reflexivity|].
    rewrite (bind_ok _ _ st tt st); [apply IH|].
    rewrite (bind_ok _ _ st _ st Es). now rewrite (bind_ok _ _ st _ st Ei).
  - intros B k. now rewrite (bind_ok _ _ st _ st Es), (bind_ok _ _ st _ st Ei).
Qed.

End Queries.

(** ** The end-to-end scenario *)

Section Scenario.
Context {Page : Type} `{Fitz Page}.
Variable random : nat -> Q.


End Scenario.


(** ** Further properties: the lines of a page *)

Section LineGrouping.

Lemma setdefault_append_words key w b :
  Permutation (flat_map snd (setdefault_append key w b)) (w :: flat_map snd b).
Proof.
  induction b as [|[k ws] b IH]; simpl; [reflexivity|].
  destruct (Qeq_bool k key); simpl.
  - rewrite <- app_assoc. simpl.
    symmetry. apply Permutation_middle.
  - rewrite IH. symmetry. apply (Permutation_middle ws (flat_map snd b) w).
Qed.

Lemma setdefault_append_nonempty key w b :
  (forall k ws, In (k, ws) b -> ws <> []) ->
  forall k ws, In (k, ws) (setdefault_append key w b) -> ws <> [].
Proof.
  induction b as [|[k0 ws0] b IH]; simpl; intros Hb k ws J.
  - destruct J as [[= <- <-]|[]]. discriminate.
  - destruct (Qeq_bool k0 key).
    + destruct J as [[= <- <-]|J]; [|now apply (Hb k ws); right].
      now destruct ws0.
    + destruct J as [[= <- <-]|J]; [apply (Hb k0 ws0); now left|].
      apply (IH (fun k' ws' J' => Hb k' ws' (or_intror J')) k ws J).
Qed.

(** X2: the grouping into lines loses no word and duplicates none: the
    buckets together are a rearrangement of the words of the page; no
    bucket is empty; no two buckets have equal keys; and each bucket holds
    exactly the words of its key, in the order the page gives them. *)
Theorem line_buckets_partition :
  forall words : list Word,
    Permutation (flat_map snd (line_buckets words)) words /\
    NoDupA Qeq (map fst (line_buckets words)) /\
    (forall k ws, In (k, ws) (line_buckets words) ->
       ws <> [] /\
       ws = List.filter (fun w => Qeq_bool k (line_key w)) words) /\
    (forall w, In w words ->
       exists k ws, In (k, ws) (line_buckets words) /\ k == line_key w /\ In w ws).
Proof.
  intros words. pose proof (line_buckets_ok words) as [Hc Hd Hv].
  assert (G : forall l b,
            Permutation
              (flat_map snd
                 (fold_left (fun buckets w => setdefault_append (line_key w) w buckets) l b))
              (flat_map snd b ++ l) /\
            ((forall k ws, In (k, ws) b -> ws <> []) ->
             forall k ws,
               In (k, ws)
                 (fold_left (fun buckets w => setdefault_append (line_key w) w buckets) l b) ->
               ws <> [])).
  { induction l as [|w l IH]; intros b; simpl.
    - rewrite app_nil_r. split; [reflexivity|auto].
    - destruct (IH (setdefault_append (line_key w) w b)) as [P N]. split.
      + rewrite P, setdefault_append_words. simpl. apply Permutation_middle.
      + intros Hb. apply N. now apply setdefault_append_nonempty. }
  destruct (G words []) as [P N]. simpl in P.
  split; [exact P|]. split; [exact Hd|]. split.
  - intros k ws J. split; [apply (N (fun _ _ F => match F with end) k ws J)|].
    exact (Hc k ws J).
  - intros w Jw. specialize (Hv w Jw). apply InA_alt in Hv as (k & Ek & Jk).
    apply in_map_iff in Jk as ([k' ws] & E & J). simpl in E. subst k'.
    exists k, ws. split; [exact J|]. split; [now symmetry|].
    apply (bucket_words words k ws w J). split; [exact Jw|now symmetry].
Qed.

(** [round] is within one half of its argument. *)
Lemma py_round_near (x : Q) :
  inject_Z (py_round x) - x <= 1 # 2 /\ x - inject_Z (py_round x) <= 1 # 2.
Proof.
  unfold py_round.
  pose proof (Qfloor_le x) as Hlo. pose proof (Qlt_floor x) as Hhi.
  rewrite inject_Z_plus in Hhi. change (inject_Z 1) with 1 in Hhi.
  destruct (Qcompare (x - inject_Z (Qfloor x)) (1 # 2)) eqn:E.
  - apply Qeq_alt in E.
    destruct (Z.even (Qfloor x)); [|rewrite inject_Z_plus; change (inject_Z 1) with 1];
      split; lra.
  - apply Qlt_alt in E. split; lra.
  - apply Qgt_alt in E. rewrite inject_Z_plus. change (inject_Z 1) with 1. split; lra.
Qed.

(** [round] gives equal results on equal floats. *)
Lemma py_round_eq (x y : Q) : x == y -> py_round x = py_round y.
Proof.
  intros E. unfold py_round. cbv zeta.
  assert (Ef : Qfloor x = Qfloor y) by (now apply Qfloor_comp).
  rewrite Ef.
  assert (Ec : Qcompare (x - inject_Z (Qfloor y)) (1 # 2)
               = Qcompare (y - inject_Z (Qfloor y)) (1 # 2)).
  { apply Qcompare_comp; [now rewrite E|reflexivity]. }
  now rewrite Ec.
Qed.

Lemma half_of (x : Q) : x / 2 == x * (1 # 2).
Proof. reflexivity. Qed.

Lemma half_of_float (x : Q) : x / 2.0 == x * (1 # 2).
Proof.
  assert (Einv : / 2.0 == 1 # 2) by reflexivity.
  unfold Qdiv. now rewrite Einv.
Qed.

Lemma line_key_near (w : Word) :
  line_key w - v_mid w <= 1 # 4 /\ v_mid w - line_key w <= 1 # 4.
Proof.
  unfold line_key, v_mid. cbv zeta.
  destruct (py_round_near ((wy0 w + wy1 w) / 2 * 2)) as [H1 H2].
  set (r := inject_Z (py_round ((wy0 w + wy1 w) / 2 * 2))) in *.
  rewrite half_of_float. rewrite half_of in *. split; lra.
Qed.

(** X3: the key of a line is a whole number of half units, at most a
    quarter unit from the vertical midpoint of each of its words; so two
    words of the same line have midpoints at most half a unit apart, and
    two words with equal midpoints are on the same line. *)
Theorem line_key_half_unit :
  forall w v : Word,
    (exists n : Z, line_key w == inject_Z n * (1 # 2)) /\
    line_key w - v_mid w <= 1 # 4 /\ v_mid w - line_key w <= 1 # 4 /\
    (line_key w == line_key v ->
     v_mid w - v_mid v <= 1 # 2 /\ v_mid v - v_mid w <= 1 # 2) /\
    (v_mid w == v_mid v -> line_key w == line_key v).
Proof.
  intros w v. destruct (line_key_near w) as [W1 W2]. destruct (line_key_near v) as [V1 V2].
  split; [|split; [exact W1|split; [exact W2|split]]].
  - exists (py_round ((wy0 w + wy1 w) / 2 * 2)). unfold line_key. cbv zeta.
    apply half_of_float.
  - intros E. split; lra.
  - intros E. unfold line_key, v_mid in *. cbv zeta.
    assert (Ex : (wy0 w + wy1 w) / 2 * 2 == (wy0 v + wy1 v) / 2 * 2) by (now rewrite E).
    now rewrite (py_round_eq _ _ Ex).
Qed.

End LineGrouping.

(** ** Further properties: the Checkbox Marker *)

Section MarkerCompleteness.

(** The converse of the tests of the marker: a "Yes" word that passes them
    all is among the marks of the page. *)
Lemma qualifying_yes_in_marks :
  forall (thr : option Q) (words : list Word) (w no : Word),
    In w words -> wtxt w = "Yes"%string ->
    (forall t, thr = Some t -> wy0 w < t - 2) ->
    In no words -> line_key no == line_key w -> right_no_ok (wx1 w) no ->
    (forall ww, In ww words -> line_key ww == line_key w ->
                left_adjacent (wx0 w) ww -> ~ numeric_text (wtxt ww)) ->
    In w (marked_on_page thr words).
Proof.
  intros thr words w no Jw Hyes Habove Jno Eno Hno Hleft.
  destruct (line_buckets_ok words) as [Hc Hd Hv].
  pose proof (Hv w Jw) as Hk. apply InA_alt in Hk as (k & Ek & Jk).
  apply in_map_iff in Jk as ([k' ws] & E & Jb). simpl in E. subst k'.
  assert (Ek' : k == line_key w) by (now symmetry).
  assert (Jws : In w ws) by (apply (bucket_words words k ws w Jb); auto).
  assert (Jnos : In no ws).
  { apply (bucket_words words k ws no Jb). split; [exact Jno|]. now rewrite Eno. }
  unfold marked_on_page. apply in_flat_map. exists (k, ws). split; [exact Jb|].
  unfold marked_in_line. simpl. apply filter_In. split.
  - apply filter_In. split; [now apply sort_by_x0_In|].
    unfold is_yes. now apply String.eqb_eq.
  - unfold checkbox_label. rewrite !andb_true_iff. repeat split.
    + apply negb_true_iff. unfold ieq_skip. destruct thr as [t|]; [|reflexivity].
      apply Qle_bool_false_iff. now apply Habove.
    + apply existsb_exists. exists no. split; [now apply sort_by_x0_In|].
      unfold is_no. apply String.eqb_eq. apply Hno.
    + pose proof (scan_right_no_inv (wx1 w) (sort_by_x0 ws)) as Hinv.
      unfold right_no_inv in Hinv.
      destruct (fst (scan_right_no (wx1 w) (sort_by_x0 ws))); [reflexivity|].
      exfalso. destruct Hinv as (_ & Hnone).
      apply (Hnone no); [now apply sort_by_x0_In|exact Hno].
    + apply negb_true_iff.
      pose proof (scan_left_neighbor_inv (wx0 w) (sort_by_x0 ws)) as Hinv.
      unfold left_neighbor_inv in Hinv.
      destruct (scan_left_neighbor (wx0 w) (sort_by_x0 ws)) as [c|]; [|reflexivity].
      destruct Hinv as (Jc & Hadj & _). apply (proj1 (sort_by_x0_In _ _)) in Jc.
      pose proof (proj1 (bucket_words words k ws c Jb) Jc) as (Jc' & Ekc).
      simpl. destruct (any_digit (wtxt c) || has_percent (wtxt c)) eqn:En; [|reflexivity].
      exfalso. apply (Hleft c Jc'); [now rewrite <- Ekc|exact Hadj|].
      now apply numeric_text_iff.
Qed.

End MarkerCompleteness.

Section MarkerFrame.
Context {Page : Type} `{Fitz Page}.
Variable random : nat -> Q.

Lemma draw_x_drawn (st : state Page) idx page x_offset box width w :
  doc st !! idx = Some page ->
  draw_x random idx x_offset box width w st
  = Ok tt (mkState
             (<[idx := x_drawn random x_offset box width w page (rng st)]> (doc st))
             (S (S (S (S (rng st)))))).
Proof. intros E. exact (draw_x_result random st idx page x_offset box width w E). Qed.

Lemma draw_marks_result idx x_offset box width marks (st : state Page) page :
  doc st !! idx = Some page ->
  draw_marks random idx x_offset box width marks st
  = Ok tt (mkState
             (<[idx := fst (marks_drawn random x_offset box width marks page (rng st))]>
                (doc st))
             (snd (marks_drawn random x_offset box width marks page (rng st)))).
Proof.
  revert st page. induction marks as [|w marks IH]; intros st page E.
  - unfold draw_marks. simpl. unfold ret. rewrite list_insert_id by exact E.
    now destruct st.
  - unfold draw_marks. rewrite for_each_cons.
    rewrite (bind_ok _ _ st tt _ (draw_x_drawn st idx page x_offset box width w E)).
    assert (L : (idx < length (doc st))%nat) by (eapply lookup_lt_Some; eauto).
    fold (draw_marks random idx x_offset box width marks).
    rewrite (IH _ (x_drawn random x_offset box width w page (rng st)))
      by (simpl; now apply list_lookup_insert_eq).
    simpl. now rewrite list_insert_insert_eq.
Qed.

Lemma marks_drawn_count x_offset box width marks (page : Page) n :
  snd (marks_drawn random x_offset box width marks page n) = (n + 4 * length marks)%nat.
Proof.
  revert page n. induction marks as [|w marks IH]; intros page n; simpl; [lia|].
  rewrite IH. lia.
Qed.

(** A page without a "Yes" word has no marks. *)
Lemma no_yes_no_marks thr (words : list Word) :
  (forall w, In w words -> wtxt w <> "Yes"%string) -> marked_on_page thr words = [].
Proof.
  intros Hno. destruct (marked_on_page thr words) as [|w marks] eqn:E; [reflexivity|].
  exfalso. assert (J : In w (marked_on_page thr words)) by (rewrite E; now left).
  apply marked_on_page_inv in J as (k & ws & Jb & Jw & Hy & _).
  apply (bucket_words words k ws w Jb) in Jw as [Jw _].
  apply (Hno w Jw). now apply String.eqb_eq.
Qed.

Lemma marker_loop x_offset box width skip (st : state Page) :
  forall m k (st_k : state Page),
    (k + m <= length (doc st))%nat ->
    length (doc st_k) = length (doc st) ->
    (forall j, (k <= j)%nat -> doc st_k !! j = doc st !! j) ->
    exists st',
      for_each (seq k m) (draw_page_marks random x_offset box width skip st) st_k
      = Ok tt st' /\
      length (doc st') = length (doc st) /\
      rng st' = (rng st_k + 4 * length (flat_map (page_marks skip st) (seq k m)))%nat /\
      (forall j, (j < k \/ k + m <= j)%nat -> doc st' !! j = doc st_k !! j) /\
      (forall j page, (k <= j < k + m)%nat -> doc st !! j = Some page ->
         doc st' !! j
         = Some (fst (marks_drawn random x_offset box width
                        (page_marks skip st j) page
                        (rng st_k
                         + 4 * length (flat_map (page_marks skip st)
                                         (seq k (j - k))))))).
Proof.
  induction m as [|m IH]; intros k st_k Hk Hlen Hsame.
  - exists st_k. simpl. repeat split; auto; try lia.
  - cbn [seq]. destruct (page_in_range k st) as [page E]; [lia|].
    assert (E_k : doc st_k !! k = Some page) by (now rewrite Hsame).
    assert (Emarks : page_marks skip st k
                     = marked_on_page (y_threshold skip k) (get_text_words page)).
    { unfold page_marks. now rewrite E. }
    rewrite for_each_cons.
    assert (Estep : draw_page_marks random x_offset box width skip st k st_k
                    = Ok tt (mkState
                               (<[k := fst (marks_drawn random x_offset box width
                                              (page_marks skip st k) page (rng st_k))]>
                                  (doc st_k))
                               (snd (marks_drawn random x_offset box width
                                       (page_marks skip st k) page (rng st_k))))).
    { unfold draw_page_marks. rewrite E, Emarks.
      apply (draw_marks_result k x_offset box width _ st_k page E_k). }
    rewrite (bind_ok _ _ st_k tt _ Estep).
    match goal with |- context [for_each _ _ ?s1] => set (st1 := s1) end.
    destruct (IH (S k) st1) as (st' & Erun & Hlen' & Hrng & Hout & Hin).
    + lia.
    + unfold st1. simpl. now rewrite length_insert.
    + intros j Hj. unfold st1. simpl. rewrite list_lookup_insert_ne by lia.
      apply Hsame. lia.
    + exists st'. split; [exact Erun|]. split; [exact Hlen'|]. split; [|split].
      * rewrite Hrng. unfold st1. cbn [rng flat_map].
        rewrite marks_drawn_count, length_app. lia.
      * intros j Hj. rewrite Hout by lia. unfold st1. simpl.
        apply list_lookup_insert_ne. lia.
      * intros j pj Hj Ej. destruct (Nat.eq_dec j k) as [->|Hne].
        -- rewrite Hout by lia. unfold st1. simpl.
           rewrite list_lookup_insert_eq by (rewrite Hlen; lia).
           rewrite E in Ej. inversion Ej; subst pj.
           rewrite Nat.sub_diag. simpl. now rewrite Nat.add_0_r.
        -- rewrite (Hin j pj) by (auto; lia). unfold st1. cbn [rng].
           rewrite marks_drawn_count.
           replace (j - k)%nat with (S (j - S k)) by lia.
           cbn [seq flat_map]. rewrite length_app. do 3 f_equal. lia.
Qed.

(** The marks of a list after those of another. *)
Lemma marks_drawn_app x_offset box width before after (page : Page) n :
  marks_drawn random x_offset box width (before ++ after) page n
  = marks_drawn random x_offset box width after
      (fst (marks_drawn random x_offset box width before page n))
      (snd (marks_drawn random x_offset box width before page n)).
Proof.
  revert page n. induction before as [|w before IH]; intros page n; simpl; [reflexivity|].
  apply IH.
Qed.

(** The marker on a whole document: each page gets the X of each of its
    marks, drawn from the position the generator has after the marks of
    the pages before. *)
Lemma marker_result x_offset box width skip (st : state Page) :
  exists st',
    mark_yes_boxes_red random x_offset box width (Some skip) st = Ok tt st' /\
    length (doc st') = length (doc st) /\
    rng st'
    = (rng st + 4 * length (flat_map (page_marks skip st) (seq 0 (length (doc st)))))%nat /\
    forall j page, doc st !! j = Some page ->
      doc st' !! j
      = Some (fst (marks_drawn random x_offset box width
                     (marked_on_page (y_threshold skip j) (get_text_words page)) page
                     (rng st + 4 * length (flat_map (page_marks skip st) (seq 0 j))))).
Proof.
  destruct (marker_loop x_offset box width skip st (length (doc st)) 0 st)
    as (st' & Erun & Hlen & Hrng & _ & Hin); auto.
  exists st'. rewrite marker_draws_marks. repeat split; auto.
  intros j page E.
  assert (L : (j < length (doc st))%nat) by (eapply lookup_lt_Some; eauto).
  rewrite (Hin j page) by (auto; lia). rewrite Nat.sub_0_r.
  unfold page_marks at 1. now rewrite E.
Qed.

(** A document of one page with one mark. *)
Lemma marker_single_page x_offset box width skip (page : Page) draws w :
  marked_on_page (y_threshold skip 0) (get_text_words page) = [w] ->
  mark_yes_boxes_red random x_offset box width (Some skip) (mkState [page] draws)
  = Ok tt (mkState [x_drawn random x_offset box width w page draws] (draws + 4)).
Proof.
  intros Emarks.
  destruct (marker_result x_offset box width skip (mkState [page] draws))
    as (st' & Erun & Hlen & Hrng & Hpage).
  rewrite Erun. f_equal. specialize (Hpage 0%nat page eq_refl).
  cbn [doc rng length seq flat_map] in Hlen, Hrng, Hpage.
  unfold page_marks in Hrng. cbn [doc lookup list_lookup] in Hrng.
  rewrite Emarks in Hrng, Hpage. cbn [length app marks_drawn fst] in Hrng, Hpage.
  rewrite Nat.add_0_r in Hpage.
  destruct st' as [[|p [|q d]] n]; simpl in Hlen, Hrng, Hpage; try discriminate.
  inversion Hpage. now subst.
Qed.

(** X4: the converse of the tests of the marker.  A "Yes" word of a page
    whose top is strictly above the boundary minus 2 (when the page has a
    boundary), with a "No" of its line starting strictly right of its right
    edge at a gap of 30 to 250, and with no numeric word of its line ending
    within reach of its left edge, gets its X: the marker returns, the word
    is one of the marks of its page, and the page ends with the X of the
    marks before it, then its two diagonals, then the X of the marks after
    it. *)
Theorem qualifying_yes_is_marked :
  forall x_offset box width skip (st : state Page) idx page (w no : Word),
    doc st !! idx = Some page ->
    In w (get_text_words page) -> wtxt w = "Yes"%string ->
    (forall t, y_threshold skip idx = Some t -> wy0 w < t - 2) ->
    In no (get_text_words page) -> line_key no == line_key w ->
    right_no_ok (wx1 w) no ->
    (forall ww, In ww (get_text_words page) -> line_key ww == line_key w ->
                left_adjacent (wx0 w) ww -> ~ numeric_text (wtxt ww)) ->
    exists st' before after n,
      mark_yes_boxes_red random x_offset box width (Some skip) st = Ok tt st' /\
      marked_on_page (y_threshold skip idx) (get_text_words page)
      = before ++ w :: after /\
      doc st' !! idx
      = Some (fst (marks_drawn random x_offset box width after
                     (x_drawn random x_offset box width w
                        (fst (marks_drawn random x_offset box width before page n))
                        (n + 4 * length before))
                     (n + 4 * length before + 4))).
Proof.
  intros x_offset box width skip st idx page w no E Jw Hyes Habove Jno Eno Hno Hleft.
  pose proof (qualifying_yes_in_marks (y_threshold skip idx) (get_text_words page)
                w no Jw Hyes Habove Jno Eno Hno Hleft) as J.
  apply in_split in J as (before & after & Esplit).
  destruct (marker_result x_offset box width skip st) as (st' & Erun & _ & _ & Hpage).
  exists st', before, after. eexists. split; [exact Erun|]. split; [exact Esplit|].
  rewrite (Hpage idx page E), Esplit, marks_drawn_app. cbn [marks_drawn].
  rewrite marks_drawn_count. do 3 f_equal. lia.
Qed.

(** X5: the marker never raises and keeps the number of pages.  Each page
    ends as the page it was with the X of each of its marks drawn on it, in
    order; a page without a "Yes" word, a page without words among them, is
    left exactly as it was; and the generator is called four times for each
    mark and not otherwise. *)
Theorem marker_changes_only_marked_pages :
  forall x_offset box width skip (st : state Page),
    exists st',
      mark_yes_boxes_red random x_offset box width (Some skip) st = Ok tt st' /\
      length (doc st') = length (doc st) /\
      rng st'
      = (rng st
         + 4 * length (flat_map (page_marks skip st) (seq 0 (length (doc st)))))%nat /\
      (forall idx page, doc st !! idx = Some page ->
         exists n,
           doc st' !! idx
           = Some (fst (marks_drawn random x_offset box width
                          (marked_on_page (y_threshold skip idx) (get_text_words page))
                          page n))) /\
      (forall idx page, doc st !! idx = Some page ->
         (forall w, In w (get_text_words page) -> wtxt w <> "Yes"%string) ->
         doc st' !! idx = Some page).
Proof.
  intros x_offset box width skip st.
  destruct (marker_loop x_offset box width skip st (length (doc st)) 0 st)
    as (st' & Erun & Hlen & Hrng & _ & Hin); auto.
  assert (Hpage : forall idx page, doc st !! idx = Some page ->
            exists n,
              doc st' !! idx
              = Some (fst (marks_drawn random x_offset box width
                             (marked_on_page (y_threshold skip idx) (get_text_words page))
                             page n))).
  { intros idx page E.
    assert (L : (idx < length (doc st))%nat) by (eapply lookup_lt_Some; eauto).
    pose proof (Hin idx page ltac:(lia) E) as En.
    eexists. rewrite En. unfold page_marks. now rewrite E. }
  exists st'. rewrite marker_draws_marks. repeat split; auto.
  intros idx page E Hno. destruct (Hpage idx page E) as [n En].
  rewrite En, (no_yes_no_marks _ _ Hno). reflexivity.
Qed.

(** [max(a, b)] is [b] when [b] is the larger. *)
Lemma py_max_right (a b : Q) : a < b -> py_max a b = b.
Proof. intros L. unfold py_max. apply Qlt_bool_iff in L. now rewrite L. Qed.

(** X6: with the default offset, box and width, whatever the generator
    returns from 0 to 1, both ends included: the X of a word is the two red
    diagonals of a square of side [b] from 9 to 11.2, drawn with a line
    width from 1 to 1.45; its centre is 7.5 to 10.5 units left of the left
    edge of the word; the square spans the vertical midpoint of the word;
    and the whole square lies strictly left of the word. *)
Theorem x_mark_left_of_word :
  forall (st : state Page) idx page (w : Word),
    (forall n, 0 <= random n /\ random n <= 1) ->
    doc st !! idx = Some page ->
    exists cx cy b wline,
      draw_x random idx 9 10 1.2 w st
      = Ok tt (mkState
                 (<[idx := draw_line (cx - b / 2, cy + b / 2) (cx + b / 2, cy - b / 2)
                             red wline
                             (draw_line (cx - b / 2, cy - b / 2) (cx + b / 2, cy + b / 2)
                                red wline page)]> (doc st))
                 (rng st + 4)) /\
      9 <= b /\ b <= 11.2 /\ 1 <= wline /\ wline <= 1.45 /\
      wx0 w - 10.5 <= cx /\ cx <= wx0 w - 7.5 /\
      cy - b / 2 < v_mid w /\ v_mid w < cy + b / 2 /\
      cx + b / 2 < wx0 w.
Proof.
  intros st idx page w Hrandom E.
  pose proof (draw_x_result random st idx page 9 10 1.2 w E) as Edraw.
  cbv zeta in Edraw.
  destruct (Hrandom (rng st)) as [L0 U0]. destruct (Hrandom (S (rng st))) as [L1 U1].
  destruct (Hrandom (S (S (rng st)))) as [L2 U2].
  destruct (Hrandom (S (S (S (rng st))))) as [L3 U3].
  rewrite (py_max_right 7.5) in Edraw by lra.
  rewrite (py_max_right 0.9) in Edraw by lra.
  replace (S (S (S (S (rng st))))) with (rng st + 4)%nat in Edraw by lia.
  eexists _, _, _, _. split; [exact Edraw|].
  unfold v_mid. rewrite !half_of. repeat split; lra.
Qed.

End MarkerFrame.

(** *** The marker on the sample pages, with the marks drawn *)

(** C2: a boundary recorded as the all-zero rectangle is not applied.  The
    marker takes the threshold of a page from the recorded rectangle only
    when the rectangle is true, and [Rect(0, 0, 0, 0)] is false: with that
    rectangle recorded for its page, the checkbox "Yes" at y0 = 200, which
    is not above the boundary at 0, gets its X all the same, whatever the
    generator returns.  With the heading at y = 400 recorded, the page
    [ieq_page] gets the X of its "Yes" at y0 = 390 and none for the one at
    y0 = 410. *)
Theorem ieq_zero_boundary_not_applied :
  forall random : nat -> Q,
    rect_bool zero_rect = false /\
    y_threshold {[ 0%nat := zero_rect ]} 0 = None /\
    ~ wy0 yes_word < y0 zero_rect - 2 /\
    (exists cx cy b wline,
       cx = wx0 yes_word - (9 + (-1.5 + (1.5 - -1.5) * random 0%nat)) /\
       cy = wy0 yes_word + (wy1 yes_word - wy0 yes_word) / 2
            + (-1.2 + (1.2 - -1.2) * random 1%nat) /\
       b = py_max 7.5 (10 + (-1.0 + (1.2 - -1.0) * random 2%nat)) /\
       wline = py_max 0.9 (1.2 + (-0.2 + (0.25 - -0.2) * random 3%nat)) /\
       mark_yes_boxes_red random 9 10 1.2 (Some {[ 0%nat := zero_rect ]})
         (mkState [yes_no_page] 0)
       = Ok tt (mkState
                  [rec_add (Line (cx - b / 2, cy + b / 2) (cx + b / 2, cy - b / 2)
                              red wline)
                     (rec_add (Line (cx - b / 2, cy - b / 2) (cx + b / 2, cy + b / 2)
                                 red wline) yes_no_page)]
                  4)) /\
    (exists cx cy b wline,
       cx = wx0 yes_above - (9 + (-1.5 + (1.5 - -1.5) * random 0%nat)) /\
       cy = wy0 yes_above + (wy1 yes_above - wy0 yes_above) / 2
            + (-1.2 + (1.2 - -1.2) * random 1%nat) /\
       b = py_max 7.5 (10 + (-1.0 + (1.2 - -1.0) * random 2%nat)) /\
       wline = py_max 0.9 (1.2 + (-0.2 + (0.25 - -0.2) * random 3%nat)) /\
       y_threshold {[ 0%nat := ieq_heading ]} 0 = Some 400 /\
       wy0 yes_above == 390 /\ wy0 yes_below == 410 /\
       mark_yes_boxes_red random 9 10 1.2 (Some {[ 0%nat := ieq_heading ]})
         (mkState [ieq_page] 0)
       = Ok tt (mkState
                  [rec_add (Line (cx - b / 2, cy + b / 2) (cx + b / 2, cy - b / 2)
                              red wline)
                     (rec_add (Line (cx - b / 2, cy - b / 2) (cx + b / 2, cy + b / 2)
                                 red wline) ieq_page)]
                  4)).
Proof.
  intros random. split; [reflexivity|]. split; [reflexivity|]. split; [|split].
  - simpl. lra.
  - eexists _, _, _, _. do 4 (split; [reflexivity|]).
    exact (marker_single_page random 9 10 1.2 {[ 0%nat := zero_rect ]}
             yes_no_page 0 yes_word eq_refl).
  - eexists _, _, _, _. do 7 (split; [reflexivity|]).
    exact (marker_single_page random 9 10 1.2 {[ 0%nat := ieq_heading ]}
             ieq_page 0 yes_above eq_refl).
Qed.

(** A superscript two left of the "Yes" is a digit: nothing is marked. *)
Lemma superscript_digit_blocks_mark :
  any_digit "m²" = true /\ marked_on_page None (rec_words squared_page) = [].
Proof. split; reflexivity. Qed.

Lemma qualifying_yes_is_marked_witness :
  exists st' before after n,
    mark_yes_boxes_red half_random 9 10 1.2 (Some {[ 0%nat := ieq_heading ]})
      (mkState [ieq_page] 0)
    = Ok tt st' /\
    marked_on_page (y_threshold {[ 0%nat := ieq_heading ]} 0) (get_text_words ieq_page)
    = before ++ yes_above :: after /\
    doc st' !! 0%nat
    = Some (fst (marks_drawn half_random 9 10 1.2 after
                   (x_drawn half_random 9 10 1.2 yes_above
                      (fst (marks_drawn half_random 9 10 1.2 before ieq_page n))
                      (n + 4 * length before))
                   (n + 4 * length before + 4))).
Proof.
  refine (qualifying_yes_is_marked half_random 9 10 1.2 {[ 0%nat := ieq_heading ]}
            (mkState [ieq_page] 0) 0%nat ieq_page yes_above no_above
            eq_refl _ eq_refl _ _ _ _ _).
  - now left.
  - intros t E.
    assert (E400 : y_threshold {[ 0%nat := ieq_heading ]} 0 = Some 400) by reflexivity.
    rewrite E400 in E. injection E as <-. simpl. lra.
  - right. now left.
  - reflexivity.
  - unfold right_no_ok. simpl. repeat split; lra.
  - intros ww [<-|[<-|[<-|[<-|[]]]]] _ [Hle _] _; revert Hle; vm_compute; auto.
Defined.

(** ** Further properties: the Section Locator and the Notes Filler *)

Section LocatorAndNotes.
Context {Page : Type} `{Fitz Page}.

(** X1: the Section Locator records, for every page of the document, the
    first hit of the heading on that page, and nothing for a page without
    a hit or for an index that is no page; it changes nothing. *)
Theorem locator_records_first_hit :
  forall st : state Page,
    exists sections,
      find_ieq_sections st = Ok sections st /\
      (forall i p, doc st !! i = Some p ->
         sections !! i = head (search_for p "Indoor Environmental Quality")) /\
      (forall i, doc st !! i = None -> sections !! i = None) /\
      (forall i r, sections !! i = Some r ->
         exists p, doc st !! i = Some p /\
                   In r (search_for p "Indoor Environmental Quality")).
Proof.
  intros st. destruct (find_ieq_sections_query st) as (sections & E & Hlook).
  exists sections. split; [exact E|]. split; [|split].
  - intros i p Ei. rewrite Hlook, Ei. reflexivity.
  - intros i Ei. rewrite Hlook, Ei. reflexivity.
  - intros i r Er. rewrite Hlook in Er.
    destruct (doc st !! i) as [p|]; [|discriminate]. simpl in Er.
    exists p. split; [reflexivity|]. unfold first_heading in Er.
    destruct (search_for p "Indoor Environmental Quality"); [discriminate|].
    simpl in Er. inversion Er. now left.
Qed.

(** The forward search returns a first hit of a later page. *)
Lemma notes_forward_later (st : state Page) start_page :
  exists found, notes_forward start_page st = Ok found st /\
    forall pi target, found = Some (pi, target) ->
      (start_page < pi < length (doc st))%nat /\
      exists p, doc st !! pi = Some p /\ head (search_for p "Notes:") = Some target.
Proof.
  unfold notes_forward.
  rewrite (bind_ok len_doc _ st (length (doc st)) st eq_refl).
  match goal with |- context [for_first ?l ?body st] =>
    destruct (for_first_query l body st) as (found & E & Hfound) end.
  - intros j J. apply in_seq in J.
    destruct (page_in_range j st) as [pj Ej]; [lia|].
    rewrite (bind_ok _ _ st _ st (page_search_ok _ _ "Notes:" _ Ej)).
    destruct (search_for pj "Notes:"); eauto.
  - exists found. split; [exact E|].
    intros pi target ->. destruct (Hfound _ eq_refl) as (j & J & Ej).
    apply in_seq in J.
    destruct (page_in_range j st) as [pj Epj]; [lia|].
    rewrite (bind_ok _ _ st _ st (page_search_ok _ _ "Notes:" _ Epj)) in Ej.
    destruct (search_for pj "Notes:") as [|r rest] eqn:Eh; inversion Ej; subst.
    split; [lia|]. exists pj. rewrite Eh. auto.
Qed.

(** One boundary changes at most one page, which is the page of the
    heading or a later one, by inserting "NA" after a "Notes:" hit of it. *)
Lemma insert_notes_na_at_frame (st : state Page) start_page ieq_rect :
  (start_page < length (doc st))%nat ->
  exists st',
    insert_notes_na_at (start_page, ieq_rect) st = Ok tt st' /\
    length (doc st') = length (doc st) /\ rng st' = rng st /\
    (st' = st \/
     exists pi p target,
       (start_page <= pi)%nat /\ doc st !! pi = Some p /\
       In target (search_for p "Notes:") /\
       doc st'
       = <[pi := insert_text (x1 target + 10, y1 target + 8) "NA" 11 "helv" red p]>
           (doc st)).
Proof.
  intros L. destruct (page_in_range _ _ L) as [page Epage].
  assert (Hfound : exists found, notes_target start_page ieq_rect st = Ok found st /\
            forall pi target, found = Some (pi, target) ->
              (start_page <= pi)%nat /\
              exists p, doc st !! pi = Some p /\ In target (search_for p "Notes:")).
  { unfold notes_target, bind. rewrite (load_page_ok _ _ _ Epage).
    destruct (List.filter _ (search_for page "Notes:")) as [|r rest] eqn:Ef.
    - destruct (notes_forward_later st start_page) as (found & E & Hfound).
      exists found. split; [exact E|]. intros pi target Efound.
      destruct (Hfound pi target Efound) as (Hpi & p & Ep & Eh).
      split; [lia|]. exists p. split; [exact Ep|].
      destruct (search_for p "Notes:"); inversion Eh. now left.
    - exists (Some (start_page, r)). split; [reflexivity|].
      intros pi target [= <- <-]. split; [lia|]. exists page. split; [exact Epage|].
      assert (J : In r (List.filter (fun r0 => Qlt_bool (y1 ieq_rect) (y0 r0))
                          (search_for page "Notes:"))) by (rewrite Ef; now left).
      now apply filter_In in J. }
  destruct Hfound as (found & E & Hwhere).
  unfold insert_notes_na_at, bind. rewrite E.
  destruct found as [[pi target]|].
  - destruct (Hwhere pi target eq_refl) as (Hpi & p & Ep & Jt).
    rewrite (update_page_ok _ _ _ _ Ep). eexists. split; [reflexivity|].
    simpl. split; [apply length_insert|]. split; [reflexivity|].
    right. exists pi, p, target. repeat split; auto.
  - exists st. unfold ret. auto.
Qed.

Lemma insert_sections_frame (l : list (nat * Rect)) (st : state Page) :
  (forall i r, In (i, r) l -> (i < length (doc st))%nat) ->
  exists st',
    for_each l insert_notes_na_at st = Ok tt st' /\
    length (doc st') = length (doc st) /\ rng st' = rng st /\
    forall j, (forall i r, In (i, r) l -> (j < i)%nat) -> doc st' !! j = doc st !! j.
Proof.
  revert st. induction l as [|[i r] l IH]; intros st Hvalid.
  - exists st. simpl. auto.
  - destruct (insert_notes_na_at_frame st i r) as (st1 & E & Elen & Erng & Hch);
      [apply (Hvalid i r); now left|].
    destruct (IH st1) as (st' & E' & Elen' & Erng' & Hframe).
    { intros j r' J. rewrite Elen. apply (Hvalid j r'). now right. }
    exists st'. rewrite for_each_cons, (bind_ok _ _ st tt st1 E).
    split; [exact E'|]. split; [congruence|]. split; [congruence|].
    intros j Hj. rewrite Hframe by (intros i' r' J; apply (Hj i' r'); now right).
    destruct Hch as [->|(pi & p & target & Hpi & _ & _ & ->)]; [reflexivity|].
    apply list_lookup_insert_ne. specialize (Hj i r (or_introl eq_refl)). lia.
Qed.

(** X7: for boundaries on pages of the document the Notes Filler never
    raises, keeps the number of pages and never calls the generator; every
    page before the first page with a boundary is left exactly as it was;
    and a single boundary changes at most one page, the page of its heading
    or a later one, by one insertion of "NA" at [(x1 + 10, y1 + 8)] of a
    "Notes:" hit of that page. *)
Theorem notes_filler_frame :
  forall (st : state Page) (sections : gmap nat Rect),
    (forall i r, sections !! i = Some r -> (i < length (doc st))%nat) ->
    (exists st',
       insert_ieq_notes_na sections st = Ok tt st' /\
       length (doc st') = length (doc st) /\ rng st' = rng st /\
       forall j, (forall i r, sections !! i = Some r -> (j < i)%nat) ->
                 doc st' !! j = doc st !! j) /\
    (forall start_page ieq_rect,
       (start_page < length (doc st))%nat ->
       exists st',
         insert_notes_na_at (start_page, ieq_rect) st = Ok tt st' /\
         (st' = st \/
          exists pi p target,
            (start_page <= pi)%nat /\ doc st !! pi = Some p /\
            In target (search_for p "Notes:") /\
            st' = mkState
                    (<[pi := insert_text (x1 target + 10, y1 target + 8)
                               "NA" 11 "helv" red p]> (doc st))
                    (rng st))).
Proof.
  intros st sections Hvalid. split.
  - destruct (insert_sections_frame (sorted_items sections) st)
      as (st' & E & Elen & Erng & Hframe).
    { intros i r J. apply (Hvalid i r). now apply sorted_items_In. }
    exists st'. repeat split; auto.
    intros j Hj. apply Hframe. intros i r J. apply (Hj i r). now apply sorted_items_In.
  - intros start_page ieq_rect L.
    destruct (insert_notes_na_at_frame st start_page ieq_rect L)
      as (st' & E & _ & Erng & Hch).
    exists st'. split; [exact E|].
    destruct Hch as [->|(pi & p & target & Hpi & Ep & Jt & Ed)]; [now left|].
    right. exists pi, p, target. repeat split; auto.
    destruct st' as [d n]. simpl in *. now subst.
Qed.

End LocatorAndNotes.

(** *** The X of the sample "Yes", and the Notes Filler on the sample page *)

Lemma x_mark_left_of_word_witness :
  exists cx cy b wline,
    draw_x half_random 0 9 10 1.2 yes_word (mkState [yes_no_page] 0)
    = Ok tt (mkState
               (<[0%nat := draw_line (cx - b / 2, cy + b / 2) (cx + b / 2, cy - b / 2)
                             red wline
                             (draw_line (cx - b / 2, cy - b / 2) (cx + b / 2, cy + b / 2)
                                red wline yes_no_page)]> [yes_no_page])
               4) /\
    9 <= b /\ b <= 11.2 /\ 1 <= wline /\ wline <= 1.45 /\
    wx0 yes_word - 10.5 <= cx /\ cx <= wx0 yes_word - 7.5 /\
    cy - b / 2 < v_mid yes_word /\ v_mid yes_word < cy + b / 2 /\
    cx + b / 2 < wx0 yes_word.
Proof.
  refine (x_mark_left_of_word half_random (mkState [yes_no_page] 0) 0%nat
            yes_no_page yes_word _ eq_refl).
  intros n. unfold half_random. split; lra.
Defined.

Lemma notes_filler_frame_witness :
  exists st',
    insert_ieq_notes_na {[ 0%nat := ieq_heading ]} (mkState [notes_page; blank_page] 0)
    = Ok tt st' /\
    length (doc st') = 2%nat /\ rng st' = 0%nat /\
    forall j, (forall i r, ({[ 0%nat := ieq_heading ]} : gmap nat Rect) !! i = Some r ->
                           (j < i)%nat) ->
              doc st' !! j = [notes_page; blank_page] !! j.
Proof.
  refine (proj1 (notes_filler_frame (mkState [notes_page; blank_page] 0)
                   {[ 0%nat := ieq_heading ]} _)).
  intros i r E. apply lookup_singleton_Some in E as [<- _]. simpl. lia.
Defined.

(** ** Further properties: the Signature Filler *)

Section NearestFirst.
Context {A : Type}.
Variable keep : Q -> bool.

(** A minimum search keeps the first of the candidates of least gap:
    every admitted candidate before the one kept is strictly farther. *)
Lemma nearest_first (cands : list (A * Q)) :
  forall a, fst (fold_left (keep_nearer keep) cands (@None A, big)) = Some a ->
    exists pre post,
      cands = pre ++ (a, snd (fold_left (keep_nearer keep) cands (@None A, big))) :: post /\
      forall c, In c pre -> keep (snd c) = true ->
                snd (fold_left (keep_nearer keep) cands (@None A, big)) < snd c.
Proof.
  assert (G : forall l seen (acc : option A * Q),
            nearest_inv keep seen acc ->
            (forall a, fst acc = Some a ->
               exists pre post, seen = pre ++ (a, snd acc) :: post /\
                 forall c, In c pre -> keep (snd c) = true -> snd acc < snd c) ->
            forall a, fst (fold_left (keep_nearer keep) l acc) = Some a ->
              exists pre post,
                seen ++ l = pre ++ (a, snd (fold_left (keep_nearer keep) l acc)) :: post /\
                forall c, In c pre -> keep (snd c) = true ->
                          snd (fold_left (keep_nearer keep) l acc) < snd c).
  { induction l as [|c l IH]; intros seen acc Hinv Hfirst; simpl.
    - rewrite app_nil_r. exact Hfirst.
    - replace (seen ++ c :: l) with ((seen ++ [c]) ++ l) by (now rewrite <- app_assoc).
      destruct acc as [best g], c as [b gc].
      unfold keep_nearer at 2 4 6. cbn [fst snd].
      destruct (keep gc && Qlt_bool gc g) eqn:Ek.
      + apply andb_true_iff in Ek as [Ek El]. apply Qlt_bool_iff in El.
        apply IH.
        * unfold nearest_inv in *. cbn [fst snd] in *.
          split; [apply in_or_app; right; now left|]. split; [exact Ek|].
          assert (Hmin : forall c, In c seen -> keep (snd c) = true -> g <= snd c).
          { destruct best; [apply Hinv|]. destruct Hinv as [-> Hmin]. exact Hmin. }
          assert (Hg : g <= big).
          { destruct best; [destruct Hinv as (_ & _ & L & _); lra|].
            destruct Hinv as [-> _]. lra. }
          split; [lra|]. intros c J Hc. apply in_app_or in J as [J|[<-|[]]].
          -- specialize (Hmin c J Hc). lra.
          -- simpl. lra.
        * intros a [= <-]. exists seen, []. split; [reflexivity|].
          intros c J Hc. cbn [fst snd] in *.
          assert (Hmin : g <= snd c).
          { unfold nearest_inv in Hinv. cbn [fst snd] in Hinv.
            destruct best; [now apply Hinv|]. destruct Hinv as [-> Hmin]. now apply Hmin. }
          lra.
      + apply IH.
        * unfold nearest_inv in *. cbn [fst snd] in *.
          assert (Hc : keep gc = true -> g <= gc).
          { intros K. rewrite K in Ek. simpl in Ek. now apply Qlt_bool_false_iff. }
          destruct best.
          -- destruct Hinv as (J & K & L & Hmin). split; [apply in_or_app; now left|].
             split; [exact K|]. split; [exact L|].
             intros c J' K'. apply in_app_or in J' as [J'|[<-|[]]]; [now apply Hmin|].
             now apply Hc.
          -- destruct Hinv as [-> Hmin]. split; [reflexivity|].
             intros c J' K'. apply in_app_or in J' as [J'|[<-|[]]]; [now apply Hmin|].
             now apply Hc.
        * intros a Ea. destruct (Hfirst a Ea) as (pre & post & -> & Hpre).
          exists pre, (post ++ [(b, gc)]). split; [|exact Hpre].
          now rewrite <- app_assoc. }
  intros a Ea. apply (G cands [] (None, big)); [|discriminate|exact Ea].
  unfold nearest_inv. simpl. split; [reflexivity|]. intros c [].
Qed.

End NearestFirst.

Section SignatureFrame.
Context {Page : Type} `{Fitz Page}.

Local Abbreviation phrase :=
  ("Signature & Stamp of Verifying Licensed Professional"%string).

Lemma page_pairs_fst i (p : Page) c : In c (page_pairs i p) -> fst c = i.
Proof.
  unfold page_pairs. rewrite in_flat_map. intros (s & _ & J).
  apply in_map_iff in J as (d & <- & _). reflexivity.
Qed.

Lemma doc_pairs_from k (pages : list Page) c :
  In c (doc_pairs k pages) -> (k <= fst c)%nat.
Proof.
  intros J. apply doc_pairs_In in J as (j & p & s & d & _ & _ & _ & ->). simpl. lia.
Qed.

(** The candidates come in the order of the pages. *)
Lemma doc_pairs_ordered (pages : list Page) :
  forall k l1 l2, doc_pairs k pages = l1 ++ l2 ->
    forall a b, In a l1 -> In b l2 -> (fst a <= fst b)%nat.
Proof.
  induction pages as [|p pages IH]; intros k l1 l2 E a b Ja Jb; simpl in E.
  - symmetry in E. apply app_eq_nil in E as [-> _]. destruct Ja.
  - apply app_eq_app in E as [l [[E1 E2]|[E1 E2]]].
    + assert (Ea : fst a = k).
      { apply (page_pairs_fst k p). rewrite E1. apply in_or_app. now left. }
      rewrite Ea. subst l2. apply in_app_or in Jb as [Jb|Jb].
      * assert (Eb : fst b = k).
        { apply (page_pairs_fst k p). rewrite E1. apply in_or_app. now right. }
        lia.
      * apply doc_pairs_from in Jb. lia.
    + subst l1. apply in_app_or in Ja as [Ja|Ja].
      * apply page_pairs_fst in Ja. rewrite Ja.
        assert (Jb' : In b (doc_pairs (S k) pages))
          by (rewrite E2; apply in_or_app; now right).
        apply doc_pairs_from in Jb'. lia.
      * exact (IH (S k) l l2 E2 a b Ja Jb).
Qed.

(** X8: when no page has the exact phrase and some "Signature" and "Date"
    boxes of one page are less than 1e9 apart, the page selected is the
    earliest of the pages that hold a pair of least distance: it holds such
    a pair, and every page that holds a pair at most as far apart comes at
    or after it. *)
Theorem signature_page_earliest_nearest :
  forall (st : state Page) i s d,
    (forall j pj, doc st !! j = Some pj -> search_for pj phrase = []) ->
    holds_pair st i s d -> v_gap s d < big ->
    exists i' s' d',
      find_signature_page st = Ok i' st /\ holds_pair st i' s' d' /\
      (forall j sj dj, holds_pair st j sj dj -> v_gap s' d' <= v_gap sj dj) /\
      (forall j sj dj, holds_pair st j sj dj -> v_gap sj dj <= v_gap s' d' ->
                       (i' <= j)%nat).
Proof.
  intros st i s d Hnone Hp L. rewrite (find_signature_page_fallback st Hnone).
  pose proof (nearest_scan (fun _ => true) (doc_pairs 0 (doc st))) as Hinv.
  pose proof (nearest_first (fun _ => true) (doc_pairs 0 (doc st))) as Hfirst.
  unfold nearest_inv in Hinv.
  destruct (fold_left _ _ _) as [[best|] g]; cbn [fst snd] in Hinv, Hfirst |- *.
  - destruct Hinv as (J & _ & _ & Hmin).
    apply doc_pairs_holds in J as (s' & d' & Hp' & Eg). simpl in Hp', Eg.
    exists best, s', d'. split; [reflexivity|]. split; [exact Hp'|]. split.
    + intros j sj dj Hj. rewrite <- Eg.
      apply (Hmin (j, v_gap sj dj)); [|reflexivity].
      apply doc_pairs_holds. exists sj, dj. auto.
    + intros j sj dj Hj Le. rewrite <- Eg in Le.
      destruct (Hfirst best eq_refl) as (pre & post & E & Hpre).
      assert (J : In (j, v_gap sj dj) (doc_pairs 0 (doc st))).
      { apply doc_pairs_holds. exists sj, dj. auto. }
      rewrite E in J. apply in_app_or in J as [J|[J|J]].
      * specialize (Hpre _ J eq_refl). simpl in Hpre. lra.
      * inversion J. lia.
      * replace (pre ++ (best, g) :: post) with ((pre ++ [(best, g)]) ++ post) in E
          by (now rewrite <- app_assoc).
        apply (doc_pairs_ordered (doc st) 0 _ _ E (best, g) (j, v_gap sj dj));
          [apply in_or_app; right; now left|exact J].
  - exfalso. destruct Hinv as (_ & Hmin).
    assert (B : big <= v_gap s d).
    { apply (Hmin (i, v_gap s d)); [|reflexivity].
      apply doc_pairs_holds. exists s, d. auto. }
    lra.
Qed.

(** X9: on a document with at least one page the Signature Filler
    returns; it changes the selected page only, which becomes the page
    with the paragraph and the labels filled, keeps the number of pages and
    never calls the generator; and when the selected page has neither
    token and lacks one of the two labels the document is left as it
    was. *)
Theorem signature_filler_frame :
  forall (st : state Page) signer_name bottom_date tol,
    doc st <> [] ->
    exists i page st',
      find_signature_page st = Ok i st /\ doc st !! i = Some page /\
      fill_signature_section_red signer_name bottom_date tol st = Ok tt st' /\
      length (doc st') = length (doc st) /\ rng st' = rng st /\
      (forall j, j <> i -> doc st' !! j = doc st !! j) /\
      doc st' !! i
      = Some (labels_filled (paragraph_filled page signer_name)
                signer_name bottom_date tol) /\
      (search_for page "(Name)" = [] -> search_for page "(Date)" = [] ->
       search_for page "Signature" = [] \/ search_for page "Date" = [] ->
       st' = st).
Proof.
  intros st signer_name bottom_date tol Hne.
  destruct (find_signature_page_query st) as (i & Efind & Hrange).
  assert (L : (i < length (doc st))%nat) by auto.
  destruct (page_in_range i st L) as [page E].
  exists i, page. eexists. split; [exact Efind|]. split; [exact E|].
  split; [exact (fill_signature_result st i page signer_name bottom_date tol Efind E)|].
  cbn [doc rng]. split; [apply length_insert|]. split; [reflexivity|]. split; [|split].
  - intros j Hj. apply list_lookup_insert_ne. congruence.
  - now apply list_lookup_insert_eq.
  - intros En Ed Hl.
    pose proof (fill_signature_result st i page signer_name bottom_date tol Efind E) as R.
    rewrite (fill_signature_nothing_found st i page signer_name bottom_date tol
               Efind E En Ed Hl) in R.
    injection R as R. symmetry. exact R.
Qed.

(** X10: the labels are paired exactly when the page has at least one
    "Signature" and one "Date" box, whatever the tolerance and the
    distances; the pair is made of a "Signature" box and a "Date" box of
    the page. *)
Theorem pair_labels_defined :
  forall tol (sig_rects date_rects : list Rect),
    (pair_labels tol sig_rects date_rects = None <->
     sig_rects = [] \/ date_rects = []) /\
    (forall s d, pair_labels tol sig_rects date_rects = Some (s, d) ->
                 In s sig_rects /\ In d date_rects).
Proof.
  intros tol sig_rects date_rects.
  pose proof (nearest_scan (fun gap => Qle_bool gap tol)
                (label_pairs sig_rects date_rects)) as Hinv.
  unfold pair_labels. rewrite scan_label_pairs_flat.
  unfold nearest_inv in Hinv.
  destruct (fold_left _ _ _) as [[[s0 d0]|] g]; cbn [fst snd] in Hinv |- *.
  - destruct Hinv as (J & _). apply label_pairs_In in J as (Js & Jd & _).
    cbn [fst snd] in Js, Jd. split.
    + split; [discriminate|]. intros [E|E]; subst; [destruct Js|destruct Jd].
    + intros s d E. injection E as <- <-. auto.
  - destruct sig_rects as [|s0 sigs], date_rects as [|d0 dates].
    + split; [split; auto|discriminate].
    + split; [split; auto|discriminate].
    + split; [split; auto|discriminate].
    + split.
      * split; [discriminate|]. intros [E|E]; discriminate.
      * intros s d [= <- <-].
        split; [apply (min_by_least y0 s0 sigs)|].
        apply (min_by_least _ d0 dates).
Qed.

(** X11: whenever the page has a "(Date)" occurrence, "NA" goes before one
    of its occurrences, with or without a "(Name)" on the page; without any
    occurrence nothing is chosen. *)
Theorem paragraph_date_is_occurrence :
  forall (name_marks date_marks : list Rect),
    (choose_para_date name_marks date_marks = None <-> date_marks = []) /\
    (forall d, choose_para_date name_marks date_marks = Some d -> In d date_marks).
Proof.
  intros name_marks date_marks. unfold choose_para_date.
  destruct date_marks as [|first others]; [split; [tauto|discriminate]|].
  destruct name_marks as [|name names].
  - split; [split; discriminate|]. intros d [= <-]. now left.
  - cbv zeta. destruct (List.find _ (first :: others)) as [d'|] eqn:Ef.
    + split; [split; discriminate|]. intros d [= <-].
      now apply List.find_some in Ef as [J _].
    + split; [split; discriminate|]. intros d [= <-]. now left.
Qed.

End SignatureFrame.

(** *** Two pages with the same labels: the first is selected *)

Lemma signature_page_earliest_nearest_witness :
  exists i' s' d',
    find_signature_page (mkState [label_page; label_page] 0)
    = Ok i' (mkState [label_page; label_page] 0) /\
    holds_pair (mkState [label_page; label_page] 0) i' s' d' /\
    (forall j sj dj, holds_pair (mkState [label_page; label_page] 0) j sj dj ->
                     v_gap s' d' <= v_gap sj dj) /\
    (forall j sj dj, holds_pair (mkState [label_page; label_page] 0) j sj dj ->
                     v_gap sj dj <= v_gap s' d' -> (i' <= j)%nat).
Proof.
  refine (signature_page_earliest_nearest (mkState [label_page; label_page] 0)
            1%nat sig_label date_label _ _ _).
  - intros [|[|j]] pj E; simpl in E; inversion E; reflexivity.
  - exists label_page. simpl. auto.
  - reflexivity.
Defined.

Lemma signature_filler_frame_witness :
  exists i page st',
    find_signature_page (mkState [label_page] 0) = Ok i (mkState [label_page] 0) /\
    [label_page] !! i = Some page /\
    fill_signature_section_red "A. Signer" "2024-01-31" 60 (mkState [label_page] 0)
    = Ok tt st' /\
    length (doc st') = 1%nat /\ rng st' = 0%nat /\
    (forall j, j <> i -> doc st' !! j = [label_page] !! j) /\
    doc st' !! i
    = Some (labels_filled (paragraph_filled page "A. Signer")
              "A. Signer" "2024-01-31" 60) /\
    (search_for page "(Name)" = [] -> search_for page "(Date)" = [] ->
     search_for page "Signature" = [] \/ search_for page "Date" = [] ->
     st' = mkState [label_page] 0).
Proof.
  refine (signature_filler_frame (mkState [label_page] 0) "A. Signer" "2024-01-31" 60 _).
  discriminate.
Defined.

(** ** Further properties: the three stages in order *)

Section Pipeline.
Context {Page : Type} `{Fitz Page}.
Variable random : nat -> Q.

(** The Marker never raises and keeps the number of pages. *)
Lemma marker_total x_offset box width skip (st : state Page) :
  exists st',
    mark_yes_boxes_red random x_offset box width (Some skip) st = Ok tt st' /\
    length (doc st') = length (doc st).
Proof.
  destruct (marker_loop random x_offset box width skip st (length (doc st)) 0 st)
    as (st' & Erun & Hlen & _); auto.
  exists st'. now rewrite marker_draws_marks.
Qed.

(** The stages before the Signature Filler never raise and keep the number
    of pages; without the Marker they keep the generator as well. *)
Lemma stages_before_signature opt_yes opt_ieq (st : state Page) :
  exists st2,
    (ieq_sections <- (if opt_ieq || opt_yes then find_ieq_sections else ret ∅) ;;
     (if opt_yes then mark_yes_boxes_red random 9 10 1.2 (Some ieq_sections) else ret tt) ;;
     (if opt_ieq && negb (size ieq_sections =? 0)%nat
      then insert_ieq_notes_na ieq_sections else ret tt)) st
    = Ok tt st2 /\
    length (doc st2) = length (doc st) /\
    (opt_yes = false -> rng st2 = rng st) /\
    (opt_yes = false -> opt_ieq = false -> st2 = st).
Proof.
  assert (S1 : exists sections,
             (if opt_ieq || opt_yes then find_ieq_sections else ret ∅) st
             = Ok sections st /\
             forall i r, sections !! i = Some r -> (i < length (doc st))%nat).
  { destruct (opt_ieq || opt_yes).
    - destruct (find_ieq_sections_query st) as (sections & E & _).
      exists sections. split; [exact E|]. intros i r.
      apply (find_ieq_sections_range st sections i r E).
    - exists ∅. split; [reflexivity|]. intros i r E. now rewrite lookup_empty in E. }
  destruct S1 as (sections & E1 & Hrange).
  rewrite (bind_ok _ _ st sections st E1).
  assert (S2 : exists st1,
             (if opt_yes then mark_yes_boxes_red random 9 10 1.2 (Some sections)
              else ret tt) st
             = Ok tt st1 /\
             length (doc st1) = length (doc st) /\ (opt_yes = false -> st1 = st)).
  { destruct opt_yes.
    - destruct (marker_total 9 10 1.2 sections st) as (st1 & E & L).
      exists st1. repeat split; auto. discriminate.
    - exists st. repeat split; auto. }
  destruct S2 as (st1 & E2 & L2 & Hoff).
  rewrite (bind_ok _ _ st tt st1 E2).
  destruct (opt_ieq && negb (size sections =? 0)%nat) eqn:Ec.
  - destruct (insert_sections_frame (sorted_items sections) st1)
      as (st2 & E3 & L3 & R3 & _).
    { intros i r J. rewrite L2. apply (Hrange i r). now apply sorted_items_In. }
    exists st2. split; [exact E3|]. split; [congruence|]. split.
    + intros Ey. rewrite R3, (Hoff Ey). reflexivity.
    + intros _ Ei. rewrite Ei in Ec. discriminate.
  - exists st1. split; [reflexivity|]. split; [exact L2|]. split.
    + intros Ey. now rewrite (Hoff Ey).
    + intros Ey _. exact (Hoff Ey).
Qed.

(** X12: the three stages in the order of the script.  On a document with
    at least one page, or with signing switched off, they return and keep
    the number of pages; without the Marker the generator is never called.
    With signing switched on, a document without pages makes them raise
    [IndexError], whatever the two other options are: the stages raise in
    no other case. *)
Theorem pipeline_returns_unless_no_page :
  forall opt_yes opt_sign opt_ieq name date_str (st : state Page),
    (doc st <> [] \/ opt_sign = false ->
     exists st',
       process_document random opt_yes opt_sign opt_ieq name date_str st = Ok tt st' /\
       length (doc st') = length (doc st) /\
       (opt_yes = false -> rng st' = rng st)) /\
    (doc st = [] -> opt_sign = true ->
     process_document random opt_yes opt_sign opt_ieq name date_str st
     = Raise IndexError).
Proof.
  intros opt_yes opt_sign opt_ieq name date_str st.
  destruct (stages_before_signature opt_yes opt_ieq st) as (st2 & E & L & R & _).
  assert (Erun : process_document random opt_yes opt_sign opt_ieq name date_str st
                 = (if opt_sign then fill_signature_section_red name date_str 60
                    else ret tt) st2).
  { unfold process_document. unfold bind in E |- *.
    destruct ((if opt_ieq || opt_yes then find_ieq_sections else ret ∅) st)
      as [sections s0|e]; [|discriminate].
    destruct ((if opt_yes then mark_yes_boxes_red random 9 10 1.2 (Some sections)
               else ret tt) s0) as [[] s1|e]; [|discriminate].
    now rewrite E. }
  rewrite Erun. split.
  - intros Hok. destruct opt_sign.
    + destruct Hok as [Hne|]; [|discriminate].
      assert (Hne2 : doc st2 <> []).
      { intros E0. rewrite E0 in L. destruct (doc st); [congruence|discriminate]. }
      destruct (find_signature_page_query st2) as (i & Efind & Hrange).
      destruct (page_in_range i st2 (Hrange Hne2)) as [page Ei].
      eexists. split; [exact (fill_signature_result st2 i page name date_str 60 Efind Ei)|].
      cbn [doc rng]. rewrite length_insert. auto.
    + exists st2. auto.
  - intros E0 ->. rewrite E0 in L. destruct st2 as [d n]. simpl in L.
    destruct d; [reflexivity|discriminate].
Qed.

End Pipeline.

(** ** Further properties: the name of the output *)

Section OutputName.

Lemma before_last_dot_none (s : string) :
  has_dot s = false -> before_last_dot s = None.
Proof.
  unfold has_dot. induction s as [|c s IH]; [reflexivity|].
  cbn [list_ascii_of_string existsb before_last_dot].
  intros E. apply orb_false_iff in E as [Ec Es].
  rewrite (IH Es), Ascii.eqb_sym, Ec. reflexivity.
Qed.

Lemma before_last_dot_split (stem ext : string) :
  has_dot ext = false ->
  before_last_dot (stem ++ String "." ext) = Some stem.
Proof.
  intros E. induction stem as [|c stem IH].
  - change (before_last_dot (String "." ext) = Some ""%string).
    cbn [before_last_dot]. now rewrite (before_last_dot_none ext E).
  - change (before_last_dot (String c (stem ++ String "." ext)) = Some (String c stem)).
    cbn [before_last_dot]. now rewrite IH.
Qed.

(** X13: the output of an upload is named after what precedes the last "."
    of its name, followed by "_signed.pdf"; a name without a "." is kept
    whole.  Hence two uploads whose names differ in the extension only get
    the same output name. *)
Theorem out_name_replaces_extension :
  (forall stem ext, has_dot ext = false ->
     out_name (stem ++ "." ++ ext) = (stem ++ "_signed.pdf")%string) /\
  (forall name, has_dot name = false ->
     out_name name = (name ++ "_signed.pdf")%string) /\
  (forall stem ext ext', has_dot ext = false -> has_dot ext' = false ->
     out_name (stem ++ "." ++ ext) = out_name (stem ++ "." ++ ext')).
Proof.
  assert (G : forall stem ext, has_dot ext = false ->
            out_name (stem ++ "." ++ ext) = (stem ++ "_signed.pdf")%string).
  { intros stem ext E. unfold out_name, rsplit_stem.
    change ("." ++ ext)%string with (String "." ext).
    now rewrite (before_last_dot_split stem ext E). }
  split; [exact G|]. split.
  - intros name E. unfold out_name, rsplit_stem.
    now rewrite (before_last_dot_none name E).
  - intros stem ext ext' E E'. now rewrite (G stem ext E), (G stem ext' E').
Qed.

End OutputName.

(** ** Further properties: marking alone *)

Section MarkingAlone.
Context {Page : Type} `{Fitz Page}.
Variable random : nat -> Q.

(** X14: with only the marking switched on, the boundaries of the Section
    Locator still apply: the stages return, every page ends as the page it
    was with the X of each mark under the boundary of that page, and on a
    page whose first heading is a truthy rectangle every mark has its top
    strictly above the top of that heading minus 2. *)
Theorem marking_alone_respects_boundary :
  forall name date_str (st : state Page),
    exists st',
      process_document random true false false name date_str st = Ok tt st' /\
      (forall idx page, doc st !! idx = Some page ->
         exists n,
           doc st' !! idx
           = Some (fst (marks_drawn random 9 10 1.2
                          (marked_on_page (page_boundary page) (get_text_words page))
                          page n))) /\
      (forall idx page r w,
         doc st !! idx = Some page -> first_heading page = Some r ->
         rect_bool r = true ->
         In w (marked_on_page (page_boundary page) (get_text_words page)) ->
         wy0 w < y0 r - 2).
Proof.
  intros name date_str st.
  destruct (find_ieq_sections_query st) as (sections & E & Hlook).
  destruct (marker_loop random 9 10 1.2 sections st (length (doc st)) 0 st)
    as (st' & Erun & _ & _ & _ & Hin); auto.
  rewrite <- marker_draws_marks in Erun.
  exists st'. split; [|split].
  - unfold process_document. cbn [orb andb].
    rewrite (bind_ok _ _ st sections st E). unfold bind. rewrite Erun. reflexivity.
  - intros idx page Ei.
    assert (L : (idx < length (doc st))%nat) by (eapply lookup_lt_Some; eauto).
    pose proof (Hin idx page ltac:(lia) Ei) as En.
    eexists. rewrite En. unfold page_marks, y_threshold, page_boundary.
    rewrite Ei, Hlook, Ei. reflexivity.
  - intros idx page r w Ei Er Hr J. unfold page_boundary in J. rewrite Er, Hr in J.
    rewrite marked_on_page_above in J. apply filter_In in J as [_ J].
    now apply Qlt_bool_iff.
Qed.

End MarkingAlone.
